(** * Multipart upload handler: a shallow embedding of [main.go]

    The program is a single HTTP handler, [FileHandler], that relays the body
    of a POST request to an S3 bucket as a multipart upload.  The handler is
    embedded as a function in a small state-and-exit monad:

    - the request body is a byte stream ([Reader]) consumed by [io.CopyN];
    - the S3 client, the UUID generator, [json.Marshal] and the network side
      of the [http.ResponseWriter] are external: they are the fields of an
      environment [Env] acting on an abstract world [W];
    - every S3 call is recorded, with its reply, in the trace [calls];
    - [return] statements and nil dereferences are the [Return] and [Panic]
      outcomes of the monad. *)

From Stdlib Require Import String Ascii.
From Stdlib Require Import ZArith List Bool Lia.
From Stdlib Require Import Init.Byte DecimalString.
Import ListNotations.

Local Open Scope string_scope.
Local Open Scope list_scope.
Local Open Scope Z_scope.

Set Implicit Arguments.

(** ** Constants (main.go, lines 19-22) *)

Definition maxContentSize : Z := 1024 * 1024 * 2500.
Definition minUploadPartSize : Z := 1024 * 1024 * 5.

(** net/http status codes and method names used by the handler. *)
Definition StatusCreated : Z := 201.
Definition StatusMethodNotAllowed : Z := 405.
Definition StatusRequestEntityTooLarge : Z := 413.
Definition StatusUnsupportedMediaType : Z := 415.
Definition StatusInternalServerError : Z := 500.
Definition MethodPost : string := "POST".

(** [partNumber] is an [int32]: [partNumber++] wraps around. *)
Definition wrap32 (z : Z) : Z := (z + 2 ^ 31) mod 2 ^ 32 - 2 ^ 31.
Definition MaxInt32 : Z := 2 ^ 31 - 1.

(** ** Errors and byte streams *)

(** Go [error] values: the handler only distinguishes [io.EOF]. *)
Inductive error : Type :=
| io_EOF
| other_error (msg : string).

Definition is_EOF (err : option error) : bool :=
  match err with
  | Some io_EOF => true
  | _ => false
  end.

(** An [io.Reader] over a finite stream: the bytes still to be delivered and
    the condition reported once they are exhausted ([io.EOF] for a clean end,
    any other error for a transport failure). *)
Record Reader : Type := mkReader {
  pending : list byte;
  final : error
}.

(** What an [io.LimitedReader] with budget [n] delivers from the bytes [l],
    and what it leaves. *)
Fixpoint limited (n : Z) (l : list byte) : list byte * list byte :=
  match l with
  | [] => ([], [])
  | b :: l' =>
      if n <=? 0 then ([], l)
      else let (got, rest) := limited (n - 1) l' in (b :: got, rest)
  end.

(** [io.CopyN(dst, src, n)]: copies [n] bytes, or until the source ends.
    It returns [(n, nil)] when [n] bytes were copied and otherwise the number
    copied with the error that stopped the copy, [io.EOF] on a clean end. *)
Definition io_CopyN (dst : list byte) (src : Reader) (n : Z)
  : (Z * option error) * list byte * Reader :=
  let (got, rest) := limited n (pending src) in
  let written := Z.of_nat (length got) in
  if written =? n
  then ((n, None), dst ++ got, mkReader rest (final src))
  else if n <? written
       then ((written, None), dst ++ got, mkReader rest (final src))
       else ((written, Some (final src)), dst ++ got, mkReader rest (final src)).

(** ** The S3 API surface used by the handler

    Only the fields the handler sets to a non-zero value, or reads, are kept;
    [*string] fields are [option string]. *)

Module CreateMultipartUploadInput.
Record t : Type := mk {
  Bucket : option string;
  Key : option string;
  ACL : string;
  ContentType : option string
}.
End CreateMultipartUploadInput.

Module CreateMultipartUploadOutput.
Record t : Type := mk {
  Bucket : option string;
  Key : option string;
  UploadId : option string
}.
End CreateMultipartUploadOutput.

Module UploadPartInput.
Record t : Type := mk {
  Bucket : option string;
  Key : option string;
  PartNumber : Z;
  UploadId : option string;
  Body : list byte;
  ContentLength : Z
}.
End UploadPartInput.

Module UploadPartOutput.
Record t : Type := mk {
  ETag : option string
}.
End UploadPartOutput.

Module CompletedPart.
Record t : Type := mk {
  ETag : option string;
  PartNumber : Z
}.
End CompletedPart.

Module CompleteMultipartUploadInput.
Record t : Type := mk {
  Bucket : option string;
  Key : option string;
  UploadId : option string;
  Parts : list CompletedPart.t
}.
End CompleteMultipartUploadInput.

Module CompleteMultipartUploadOutput.
Record t : Type := mk {
  Key : option string;
  Location : option string
}.
End CompleteMultipartUploadOutput.

Definition ObjectCannedACLPrivate : string := "private".

(** ** Response payload (main.go, lines 29-36) *)

Record Link : Type := mkLink {
  URL : string
}.

Record Message : Type := mkMessage {
  Key : string;
  Links : list Link
}.

(** ** Requests and responses *)

(** The parts of an [*http.Request] the handler reads.  [Header] holds one
    value per canonical key, as net/http stores incoming headers;
    [ContentLength] is negative when the length is unknown. *)
Record Request : Type := mkRequest {
  Method : string;
  Header : list (string * string);
  ContentLength : Z;
  Body : Reader
}.

(** [Header.Get]: the value stored under the key, or the empty string. *)
Fixpoint Header_Get (h : list (string * string)) (key : string) : string :=
  match h with
  | [] => ""
  | (k, v) :: h' => if String.eqb k key then v else Header_Get h' key
  end.

(** [Header.Set]: replaces the value stored under the key. *)
Fixpoint Header_Set (h : list (string * string)) (key value : string)
  : list (string * string) :=
  match h with
  | [] => [(key, value)]
  | (k, v) :: h' =>
      if String.eqb k key then (k, value) :: h'
      else (k, v) :: Header_Set h' key value
  end.

(** What the [http.ResponseWriter] has been told so far. *)
Record Response : Type := mkResponse {
  header : list (string * string);
  status : option Z;
  written : list byte
}.

Definition emptyResponse : Response := mkResponse [] None [].

(** ** The trace of backend calls *)

Inductive Event : Type :=
| CreateMultipartUploadCall
    (input : CreateMultipartUploadInput.t)
    (reply : CreateMultipartUploadOutput.t + error)
| UploadPartCall
    (input : UploadPartInput.t)
    (reply : UploadPartOutput.t + error)
| CompleteMultipartUploadCall
    (input : CompleteMultipartUploadInput.t)
    (reply : CompleteMultipartUploadOutput.t + error).

(** ** The environment

    Everything the handler calls but does not define: the package-level
    [bucket] and [client], [uuid.New], [json.Marshal] and the connection
    behind [w.Write].  The world [W] is the state of these collaborators. *)
Record Env (W : Type) : Type := mkEnv {
  bucket : string;
  uuid_New : W -> string * W;
  s3_CreateMultipartUpload :
    CreateMultipartUploadInput.t -> W ->
    (CreateMultipartUploadOutput.t + error) * W;
  s3_UploadPart :
    UploadPartInput.t -> W -> (UploadPartOutput.t + error) * W;
  s3_CompleteMultipartUpload :
    CompleteMultipartUploadInput.t -> W ->
    (CompleteMultipartUploadOutput.t + error) * W;
  json_Marshal : Message -> list byte + error;
  conn_Write : list byte -> W -> option error * W
}.

(** ** The handler monad *)

(** How a computation ends: with a value, by a [return] statement, by a
    panic, or without an answer when the loop fuel runs out. *)
Inductive Flow (A : Type) : Type :=
| Next (a : A)
| Return
| Panic
| Diverge.

Arguments Return {A}.
Arguments Panic {A}.
Arguments Diverge {A}.

Section Handler.

Context {W : Type} (env : Env W).

Record State : Type := mkState {
  world : W;
  body : Reader;
  calls : list Event;
  logged : list error;
  resp : Response
}.

Definition M (A : Type) : Type := State -> Flow A * State.

Definition ret {A : Type} (a : A) : M A := fun st => (Next a, st).

Definition bind {A B : Type} (c : M A) (k : A -> M B) : M B :=
  fun st =>
    match c st with
    | (Next a, st') => k a st'
    | (Return, st') => (Return, st')
    | (Panic, st') => (Panic, st')
    | (Diverge, st') => (Diverge, st')
    end.

Notation "x <- c ;; k" := (bind c (fun x => k))
  (at level 61, c at next level, right associativity).
Notation "' pat <- c ;; k" := (bind c (fun pat => k))
  (at level 61, pat pattern, c at next level, right associativity).
Notation "c ;; k" := (bind c (fun _ => k))
  (at level 61, right associativity).

Definition return_ {A : Type} : M A := fun st => (Return, st).
Definition panic {A : Type} : M A := fun st => (Panic, st).

(** Dereferencing a pointer the SDK may have left nil. *)
Definition deref {A : Type} (p : option A) : M A :=
  match p with
  | Some a => ret a
  | None => panic
  end.

Definition log_Println (e : error) : M unit :=
  fun st =>
    (Next tt, mkState (world st) (body st) (calls st) (logged st ++ [e]) (resp st)).

Definition w_Header_Set (key value : string) : M unit :=
  fun st =>
    let r := resp st in
    (Next tt,
     mkState (world st) (body st) (calls st) (logged st)
       (mkResponse (Header_Set (header r) key value) (status r) (written r))).

(** [w.WriteHeader]: only the first status code is sent. *)
Definition w_WriteHeader (code : Z) : M unit :=
  fun st =>
    let r := resp st in
    (Next tt,
     mkState (world st) (body st) (calls st) (logged st)
       (mkResponse (header r)
          (match status r with Some c => Some c | None => Some code end)
          (written r))).

(** [w.Write]: sends the header with status 200 if none was sent yet, then
    hands the bytes to the connection, which may fail. *)
Definition w_Write (b : list byte) : M (option error) :=
  fun st =>
    let r := resp st in
    let (err, w') := conn_Write env b (world st) in
    (Next err,
     mkState w' (body st) (calls st) (logged st)
       (mkResponse (header r)
          (match status r with Some c => Some c | None => Some 200 end)
          (written r ++ b))).

Definition new_uuid : M string :=
  fun st =>
    let (u, w') := uuid_New env (world st) in
    (Next u, mkState w' (body st) (calls st) (logged st) (resp st)).

Definition client_CreateMultipartUpload (input : CreateMultipartUploadInput.t)
  : M (CreateMultipartUploadOutput.t + error) :=
  fun st =>
    let (reply, w') := s3_CreateMultipartUpload env input (world st) in
    (Next reply,
     mkState w' (body st) (calls st ++ [CreateMultipartUploadCall input reply])
       (logged st) (resp st)).

Definition client_UploadPart (input : UploadPartInput.t)
  : M (UploadPartOutput.t + error) :=
  fun st =>
    let (reply, w') := s3_UploadPart env input (world st) in
    (Next reply,
     mkState w' (body st) (calls st ++ [UploadPartCall input reply])
       (logged st) (resp st)).

Definition client_CompleteMultipartUpload (input : CompleteMultipartUploadInput.t)
  : M (CompleteMultipartUploadOutput.t + error) :=
  fun st =>
    let (reply, w') := s3_CompleteMultipartUpload env input (world st) in
    (Next reply,
     mkState w' (body st) (calls st ++ [CompleteMultipartUploadCall input reply])
       (logged st) (resp st)).

(** [io.CopyN(&buffer, r.Body, n)] on the request body held in the state. *)
Definition copy_from_body (buffer : list byte) (n : Z)
  : M (Z * option error * list byte) :=
  fun st =>
    let '(res, buffer', body') := io_CopyN buffer (body st) n in
    (Next (res, buffer'),
     mkState (world st) body' (calls st) (logged st) (resp st)).

(** ** The handler (main.go, lines 38-194)

    The body of [FileHandler] is cut into the content-type switch, the two
    halves of a loop iteration, the loop, and the completion of the upload;
    [FileHandler] chains them in the order of the source. *)

(** The content-type switch (lines 52-73). *)
Definition filenameExtension (contentType : string) : string :=
  if String.eqb contentType "image/gif" then ".gif"
  else if String.eqb contentType "image/jpeg" then ".jpeg"
  else if String.eqb contentType "image/png" then ".png"
  else if String.eqb contentType "image/tiff" then ".tiff"
  else if String.eqb contentType "video/quicktime" then ".mov"
  else if String.eqb contentType "video/mpeg" then ".mpeg"
  else if String.eqb contentType "video/mp4 " then ".mp4"
  else if String.eqb contentType "video/webm" then ".webm"
  else "".

(** The variables of the part loop (lines 111-114). *)
Record LoopVars : Type := mkLoopVars {
  buffer : list byte;
  completedParts : list CompletedPart.t;
  lastPart : bool;
  partNumber : Z
}.

(** Reading the next part into the buffer (lines 116-124). *)
Definition readPart (v : LoopVars) : M LoopVars :=
  '(n, err, buf) <- copy_from_body (buffer v) minUploadPartSize ;;
  if (n =? 0) || is_EOF err
  then ret (mkLoopVars buf (completedParts v) true (partNumber v))
  else match err with
       | Some e =>
           log_Println e ;;
           w_WriteHeader StatusInternalServerError ;;
           return_
       | None => ret (mkLoopVars buf (completedParts v) (lastPart v) (partNumber v))
       end.

(** Storing the buffer as the current part (lines 127-152). *)
Definition storePart (mpu : CreateMultipartUploadOutput.t) (v : LoopVars)
  : M LoopVars :=
  reply <- client_UploadPart
             (UploadPartInput.mk
                (CreateMultipartUploadOutput.Bucket mpu)
                (CreateMultipartUploadOutput.Key mpu)
                (partNumber v)
                (CreateMultipartUploadOutput.UploadId mpu)
                (buffer v)
                (Z.of_nat (length (buffer v)))) ;;
  match reply with
  | inr e =>
      log_Println e ;;
      w_WriteHeader StatusInternalServerError ;;
      return_
  | inl uploadPartOutput =>
      ret (mkLoopVars
             []
             (completedParts v ++
                [CompletedPart.mk (UploadPartOutput.ETag uploadPartOutput)
                   (partNumber v)])
             (lastPart v)
             (wrap32 (partNumber v + 1)))
  end.

(** One iteration of the loop (lines 116-152). *)
Definition loopBody (mpu : CreateMultipartUploadOutput.t) (v : LoopVars)
  : M LoopVars :=
  v' <- readPart v ;; storePart mpu v'.

(** [for !lastPart { ... }] (line 115), unrolled at most [fuel] times. *)
Fixpoint uploadLoop (fuel : nat) (mpu : CreateMultipartUploadOutput.t)
  (v : LoopVars) : M LoopVars :=
  if lastPart v then ret v
  else match fuel with
       | O => fun st => (Diverge, st)
       | S fuel' => v' <- loopBody mpu v ;; uploadLoop fuel' mpu v'
       end.

(** Every iteration but the last consumes [minUploadPartSize] bytes, so one
    more unrolling than there are bytes in the body is enough. *)
Definition loopFuel (r : Request) : nat := S (length (pending (Body r))).

(** Completing the upload and answering (lines 154-189). *)
Definition respond (multipartUploadOutput : CreateMultipartUploadOutput.t)
  (completedParts : list CompletedPart.t) : M unit :=
  completed <- client_CompleteMultipartUpload
                 (CompleteMultipartUploadInput.mk
                    (CreateMultipartUploadOutput.Bucket multipartUploadOutput)
                    (CreateMultipartUploadOutput.Key multipartUploadOutput)
                    (CreateMultipartUploadOutput.UploadId multipartUploadOutput)
                    completedParts) ;;
  match completed with
  | inr e =>
      log_Println e ;;
      w_WriteHeader StatusInternalServerError ;;
      return_
  | inl completeMultipartUploadOutput =>
      key <- deref (CompleteMultipartUploadOutput.Key
                      completeMultipartUploadOutput) ;;
      url <- deref (CompleteMultipartUploadOutput.Location
                      completeMultipartUploadOutput) ;;
      match json_Marshal env (mkMessage key [mkLink url]) with
      | inr e =>
          log_Println e ;;
          w_WriteHeader StatusInternalServerError ;;
          return_
      | inl b =>
          w_WriteHeader StatusCreated ;;
          werr <- w_Write b ;;
          match werr with
          | Some e =>
              log_Println e ;;
              w_WriteHeader StatusInternalServerError ;;
              return_
          | None => return_
          end
      end
  end.

(** The handler (lines 38-194). *)
Definition FileHandler (r : Request) : M unit :=
  if String.eqb (Method r) MethodPost then
    w_Header_Set "Accept" "application/octet-stream" ;;
    w_Header_Set "Content-Type" "application/json" ;;
    let contentType := Header_Get (Header r) "Content-Type" in
    if negb (String.prefix "image/" contentType)
       && negb (String.prefix "video/" contentType)
    then w_WriteHeader StatusUnsupportedMediaType ;; return_
    else
    if ContentLength r >? maxContentSize
    then w_WriteHeader StatusRequestEntityTooLarge ;; return_
    else
    let filenameExtension := filenameExtension contentType in
    u <- new_uuid ;;
    created <- client_CreateMultipartUpload
                 (CreateMultipartUploadInput.mk
                    (Some (bucket env))
                    (Some (String.append u filenameExtension))
                    ObjectCannedACLPrivate
                    (Some contentType)) ;;
    match created with
    | inr e =>
        log_Println e ;;
        w_WriteHeader StatusInternalServerError ;;
        return_
    | inl multipartUploadOutput =>
        v <- uploadLoop (loopFuel r) multipartUploadOutput
               (mkLoopVars [] [] false 1) ;;
        respond multipartUploadOutput (completedParts v)
    end
  else
    w_WriteHeader StatusMethodNotAllowed ;; return_.

(** Serving one request from the world [w]. *)
Definition initial (r : Request) (w : W) : State :=
  mkState w (Body r) [] [] emptyResponse.

Definition serve (r : Request) (w : W) : Flow unit * State :=
  FileHandler r (initial r w).

End Handler.

Arguments State W : clear implicits.

Unset Implicit Arguments.

(** * Vocabulary of the properties *)

(** ** Observing an execution *)

(** The status code, the backend calls and the way the handler ends when
    it serves [r] from the world [w]. *)
Definition responded {W : Type} (env : Env W) (r : Request) (w : W) : option Z :=
  status (resp (snd (serve env r w))).

Definition backendCalls {W : Type} (env : Env W) (r : Request) (w : W)
  : list Event :=
  calls (snd (serve env r w)).

Definition outcome {W : Type} (env : Env W) (r : Request) (w : W) : Flow unit :=
  fst (serve env r w).

(** [r.Header.Get("Content-Type")] and the test made on it (line 44). *)
Definition contentType (r : Request) : string :=
  Header_Get (Header r) "Content-Type".

Definition acceptedType (ct : string) : bool :=
  String.prefix "image/" ct || String.prefix "video/" ct.

(** The number of bytes of the body. *)
Definition bodySize (r : Request) : Z := Z.of_nat (length (pending (Body r))).

(** The inputs of the upload-part calls of a trace, in order. *)
Definition uploadCalls (t : list Event) : list UploadPartInput.t :=
  flat_map (fun ev => match ev with
                      | UploadPartCall input _ => [input]
                      | _ => []
                      end) t.

(** The inputs of the complete-multipart calls of a trace. *)
Definition completeCalls (t : list Event) : list CompleteMultipartUploadInput.t :=
  flat_map (fun ev => match ev with
                      | CompleteMultipartUploadCall input _ => [input]
                      | _ => []
                      end) t.

(** The part records the backend acknowledged: one per successful
    upload-part call, pairing the part number sent with the token returned. *)
Definition acknowledged (t : list Event) : list CompletedPart.t :=
  flat_map (fun ev => match ev with
                      | UploadPartCall input (inl output) =>
                          [CompletedPart.mk (UploadPartOutput.ETag output)
                             (UploadPartInput.PartNumber input)]
                      | _ => []
                      end) t.

(** Part numbers 1, 2, ..., k. *)
Definition countingFrom1 (k : nat) : list Z := map Z.of_nat (seq 1 k).

(** The ceiling of [n / c], for [0 < c]. *)
Definition ceilDiv (n c : Z) : Z := (n + c - 1) / c.

(** ** Assumptions on the environment *)

(** Every backend call succeeds, and the completion reply names the object
    and its location, as S3 does. *)
Definition backendSucceeds {W : Type} (env : Env W) : Prop :=
  (forall input w, exists output w',
      s3_CreateMultipartUpload env input w = (inl output, w')) /\
  (forall input w, exists output w',
      s3_UploadPart env input w = (inl output, w')) /\
  (forall input w, exists key url w',
      s3_CompleteMultipartUpload env input w =
        (inl (CompleteMultipartUploadOutput.mk (Some key) (Some url)), w')).

(** The backend names the object by the key it was given. *)
Definition backendEchoesKey {W : Type} (env : Env W) : Prop :=
  (forall input w output w' key,
      s3_CreateMultipartUpload env input w = (inl output, w') ->
      CreateMultipartUploadInput.Key input = Some key ->
      CreateMultipartUploadOutput.Key output = Some key) /\
  (forall input w output w' key,
      s3_CompleteMultipartUpload env input w = (inl output, w') ->
      CompleteMultipartUploadInput.Key input = Some key ->
      CompleteMultipartUploadOutput.Key output = Some key).

(** [json.Marshal] encodes every message. *)
Definition marshalSucceeds {W : Type} (env : Env W) : Prop :=
  forall m, exists b, json_Marshal env m = inl b.

(** ** The slices of a body *)

(** The bytes of part [k + 1]: the [k]-th slice of [minUploadPartSize] bytes
    of the body (shorter, possibly empty, at the end of the body). *)
Definition chunk (data : list byte) (k : nat) : list byte :=
  firstn (Z.to_nat minUploadPartSize)
    (skipn (Z.to_nat (Z.of_nat k * minUploadPartSize)) data).

(** The upload-part request the handler sends for part [k + 1]. *)
Definition partInput (mpu : CreateMultipartUploadOutput.t) (data : list byte)
  (k : nat) : UploadPartInput.t :=
  UploadPartInput.mk
    (CreateMultipartUploadOutput.Bucket mpu)
    (CreateMultipartUploadOutput.Key mpu)
    (wrap32 (Z.of_nat k + 1))
    (CreateMultipartUploadOutput.UploadId mpu)
    (chunk data k)
    (Z.of_nat (length (chunk data k))).

(** An acknowledged upload, as an event of the trace and as the record the
    handler keeps of it. *)
Definition ackEvent (p : UploadPartInput.t * UploadPartOutput.t) : Event :=
  UploadPartCall (fst p) (inl (snd p)).

Definition recordOf (p : UploadPartInput.t * UploadPartOutput.t) : CompletedPart.t :=
  CompletedPart.mk (UploadPartOutput.ETag (snd p)) (UploadPartInput.PartNumber (fst p)).

(** The response after [w.WriteHeader(http.StatusInternalServerError)]. *)
Definition with500 (r : Response) : Response :=
  mkResponse (header r)
    (match status r with Some c => Some c | None => Some StatusInternalServerError end)
    (written r).

(** The response headers set on every POST request (lines 41-42). *)
Definition jsonHeader : list (string * string) :=
  [("Accept", "application/octet-stream"); ("Content-Type", "application/json")].

(** ** The executions of an accepted request

    Once a POST request has passed the content-type and size checks, the
    handler runs in one of four ways.  [Run] names them, [runTrace] gives
    the trace of each, [runAnswer] the answer given to the client, and [runOf]
    ties the replies to the environment. *)

Inductive Run : Type :=
| RunCreateFailed (e : error)
| RunReadFailed
    (mpu : CreateMultipartUploadOutput.t)
    (ups : list (UploadPartInput.t * UploadPartOutput.t))
| RunUploadFailed
    (mpu : CreateMultipartUploadOutput.t)
    (ups : list (UploadPartInput.t * UploadPartOutput.t))
    (e : error)
| RunCompleted
    (mpu : CreateMultipartUploadOutput.t)
    (ups : list (UploadPartInput.t * UploadPartOutput.t))
    (reply : CompleteMultipartUploadOutput.t + error).

(** The completion request sent after the uploads [ups]. *)
Definition completeInput (mpu : CreateMultipartUploadOutput.t)
  (ups : list (UploadPartInput.t * UploadPartOutput.t))
  : CompleteMultipartUploadInput.t :=
  CompleteMultipartUploadInput.mk
    (CreateMultipartUploadOutput.Bucket mpu)
    (CreateMultipartUploadOutput.Key mpu)
    (CreateMultipartUploadOutput.UploadId mpu)
    (map recordOf ups).

Definition runTrace (cin : CreateMultipartUploadInput.t) (data : list byte)
  (run : Run) : list Event :=
  match run with
  | RunCreateFailed e => [CreateMultipartUploadCall cin (inr e)]
  | RunReadFailed mpu ups =>
      CreateMultipartUploadCall cin (inl mpu) :: map ackEvent ups
  | RunUploadFailed mpu ups e =>
      CreateMultipartUploadCall cin (inl mpu) ::
        map ackEvent ups ++
        [UploadPartCall (partInput mpu data (length ups)) (inr e)]
  | RunCompleted mpu ups reply =>
      CreateMultipartUploadCall cin (inl mpu) ::
        map ackEvent ups ++
        [CompleteMultipartUploadCall (completeInput mpu ups) reply]
  end.

(** What the handler makes of the reply to the completion call: how it
    ends, the status code, and the payload handed to [w.Write]. *)
Definition answer {W : Type} (env : Env W)
  (reply : CompleteMultipartUploadOutput.t + error)
  : Flow unit * option Z * list byte :=
  match reply with
  | inr _ => (Return, Some StatusInternalServerError, [])
  | inl out =>
      match CompleteMultipartUploadOutput.Key out,
            CompleteMultipartUploadOutput.Location out with
      | Some key, Some url =>
          match json_Marshal env (mkMessage key [mkLink url]) with
          | inl b => (Return, Some StatusCreated, b)
          | inr _ => (Return, Some StatusInternalServerError, [])
          end
      | _, _ => (Panic, None, [])
      end
  end.

(** The answer of a run: every failure before completion is a 500. *)
Definition runAnswer {W : Type} (env : Env W) (run : Run)
  : Flow unit * option Z * list byte :=
  match run with
  | RunCompleted _ _ reply => answer env reply
  | _ => (Return, Some StatusInternalServerError, [])
  end.

(** The request that initiates the upload: the key is a fresh UUID followed
    by the extension of the content type. *)
Definition createInput {W : Type} (env : Env W) (r : Request) (w : W)
  : CreateMultipartUploadInput.t :=
  CreateMultipartUploadInput.mk
    (Some (bucket env))
    (Some (String.append (fst (uuid_New env w))
             (filenameExtension (contentType r))))
    ObjectCannedACLPrivate
    (Some (contentType r)).

(** The requests sent for the parts are the slices of the body, numbered
    from 1. *)
Definition sliced (mpu : CreateMultipartUploadOutput.t) (data : list byte)
  (ups : list (UploadPartInput.t * UploadPartOutput.t)) : Prop :=
  map fst ups = map (partInput mpu data) (seq 0 (length ups)).

(** [run] is a run of the request [r] in the world [w]: its replies are
    replies of the environment, and its uploads follow the body. *)
Definition runOf {W : Type} (env : Env W) (r : Request) (w : W) (run : Run)
  : Prop :=
  let data := pending (Body r) in
  let created mpu :=
    exists w', s3_CreateMultipartUpload env (createInput env r w)
                 (snd (uuid_New env w)) = (inl mpu, w') in
  match run with
  | RunCreateFailed e =>
      exists w', s3_CreateMultipartUpload env (createInput env r w)
                   (snd (uuid_New env w)) = (inr e, w')
  | RunReadFailed mpu ups =>
      created mpu /\ sliced mpu data ups /\ final (Body r) <> io_EOF /\
      Z.of_nat (length ups) * minUploadPartSize < bodySize r
  | RunUploadFailed mpu ups e =>
      created mpu /\ sliced mpu data ups /\
      exists w1 w2,
        s3_UploadPart env (partInput mpu data (length ups)) w1 = (inr e, w2)
  | RunCompleted mpu ups reply =>
      created mpu /\ sliced mpu data ups /\
      Z.of_nat (length ups) = bodySize r / minUploadPartSize + 1 /\
      exists w1 w2,
        s3_CompleteMultipartUpload env (completeInput mpu ups) w1 = (reply, w2)
  end.

(** ** The part loop *)

(** The invariant of the part loop, for the body [data] ending with [fin]
    and the state [st0] in which the loop is entered.  After [length ups]
    iterations: the trace has grown by one acknowledged upload per iteration,
    the part records mirror them, and the body has been consumed by that many
    slices. *)
Definition loopInv {W : Type} (mpu : CreateMultipartUploadOutput.t)
  (data : list byte) (fin : error) (st0 : State W)
  (v : LoopVars) (st : State W) : Prop :=
  exists ups : list (UploadPartInput.t * UploadPartOutput.t),
    map fst ups = map (partInput mpu data) (seq 0 (length ups)) /\
    calls st = calls st0 ++ map ackEvent ups /\
    completedParts v = map recordOf ups /\
    partNumber v = wrap32 (Z.of_nat (length ups) + 1) /\
    buffer v = [] /\
    resp st = resp st0 /\
    final (body st) = fin /\
    (lastPart v = false ->
       pending (body st) =
         skipn (Z.to_nat (Z.of_nat (length ups) * minUploadPartSize)) data /\
       Z.of_nat (length ups) * minUploadPartSize <= Z.of_nat (length data)) /\
    (lastPart v = true ->
       Z.of_nat (length ups) = Z.of_nat (length data) / minUploadPartSize + 1).

(** The loop was left by a [return]: after a read error, or after the
    backend refused the next part. *)
Definition loopAborted {W : Type} (env : Env W)
  (mpu : CreateMultipartUploadOutput.t) (data : list byte) (fin : error)
  (st0 : State W) (st : State W) : Prop :=
  exists (ups : list (UploadPartInput.t * UploadPartOutput.t)) (tail : list Event),
    map fst ups = map (partInput mpu data) (seq 0 (length ups)) /\
    calls st = calls st0 ++ map ackEvent ups ++ tail /\
    resp st = with500 (resp st0) /\
    ((tail = [] /\ fin <> io_EOF /\
      Z.of_nat (length ups) * minUploadPartSize < Z.of_nat (length data)) \/
     (exists e w w',
         tail = [UploadPartCall (partInput mpu data (length ups)) (inr e)] /\
         s3_UploadPart env (partInput mpu data (length ups)) w = (inr e, w'))).

(** ** A concrete environment

    A backend that accepts every call: object keys are echoed, the upload id
    is fixed, and the integrity token of a part is derived from its number.
    The world counts the UUIDs handed out; the JSON encoder is a stand-in
    that writes the fields without escaping them. *)

Definition decimal (n : Z) : string := NilZero.string_of_int (Z.to_int n).
Definition tokenOf (n : Z) : string := String.append "etag-" (decimal n).
Definition uuidOf (w : nat) : string := String.append "uuid-" (decimal (Z.of_nat w)).

Definition bytesOf (s : string) : list byte := list_byte_of_string s.

Definition quoted (s : string) : string :=
  String (ascii_of_nat 34) (String.append s (String (ascii_of_nat 34) "")).

Definition jsonLink (l : Link) : string :=
  String.concat "" ["{"; quoted "url"; ":"; quoted (URL l); "}"].

Definition jsonMessage (m : Message) : string :=
  String.concat ""
    ["{"; quoted "key"; ":"; quoted (Key m); ","; quoted "links"; ":[";
     String.concat "," (map jsonLink (Links m)); "]}"].

Definition acceptingEnv : Env nat :=
  mkEnv
    "media"
    (fun w => (uuidOf w, S w))
    (fun input w =>
       (inl (CreateMultipartUploadOutput.mk
               (CreateMultipartUploadInput.Bucket input)
               (CreateMultipartUploadInput.Key input)
               (Some "upload-1")), w))
    (fun input w =>
       (inl (UploadPartOutput.mk
               (Some (tokenOf (UploadPartInput.PartNumber input)))), w))
    (fun input w =>
       let key := match CompleteMultipartUploadInput.Key input with
                  | Some k => k
                  | None => "unnamed"
                  end in
       (inl (CompleteMultipartUploadOutput.mk
               (Some key)
               (Some (String.append "https://media.example/" key))), w))
    (fun m => inl (bytesOf (jsonMessage m)))
    (fun _ w => (None, w)).

(** The same backend, except that uploading part [k] fails. *)
Definition failingAtPart (k : Z) : Env nat :=
  mkEnv
    (bucket acceptingEnv)
    (uuid_New acceptingEnv)
    (s3_CreateMultipartUpload acceptingEnv)
    (fun input w =>
       if UploadPartInput.PartNumber input =? k
       then (inr (other_error "upload refused"), w)
       else s3_UploadPart acceptingEnv input w)
    (s3_CompleteMultipartUpload acceptingEnv)
    (json_Marshal acceptingEnv)
    (conn_Write acceptingEnv).

(** A POST request of the given content type, declared length and body. *)
Definition post (contentType : string) (declared : Z) (data : list byte)
  : Request :=
  mkRequest "POST" [("Content-Type", contentType)] declared
    (mkReader data io_EOF).

(** A body of 12 MiB of zero bytes. *)
Definition twelveMiB : list byte := repeat x00 (Z.to_nat (12 * 1024 * 1024)).

(** A body of exactly one part: [minUploadPartSize] zero bytes. *)
Definition oneFullPart : list byte := repeat x00 (Z.to_nat minUploadPartSize).

(** An empty video upload whose first part the backend refuses. *)
Definition refusedUploadTrace : list Event :=
  [CreateMultipartUploadCall
     (CreateMultipartUploadInput.mk
        (Some "media") (Some "uuid-0") "private" (Some "video/mp4"))
     (inl (CreateMultipartUploadOutput.mk
             (Some "media") (Some "uuid-0") (Some "upload-1")))].

Definition refusedPart : UploadPartInput.t :=
  UploadPartInput.mk (Some "media") (Some "uuid-0") 1 (Some "upload-1") [] 0.

(** A three-byte image, uploaded in one part and completed. *)
Definition smallUploadTrace : list Event :=
  [CreateMultipartUploadCall
     (CreateMultipartUploadInput.mk
        (Some "media") (Some "uuid-0.png") "private" (Some "image/png"))
     (inl (CreateMultipartUploadOutput.mk
             (Some "media") (Some "uuid-0.png") (Some "upload-1")));
   UploadPartCall
     (UploadPartInput.mk (Some "media") (Some "uuid-0.png") 1 (Some "upload-1")
        [x89; x50; x4e] 3)
     (inl (UploadPartOutput.mk (Some "etag-1")))].

Definition smallUploadCompletion : CompleteMultipartUploadInput.t :=
  CompleteMultipartUploadInput.mk
    (Some "media") (Some "uuid-0.png") (Some "upload-1")
    [CompletedPart.mk (Some "etag-1") 1].

(** ** Vocabulary of the further properties *)

(** The errors logged and the response headers when the handler has served
    [r] from the world [w]. *)
Definition loggedErrors {W : Type} (env : Env W) (r : Request) (w : W)
  : list error :=
  logged (snd (serve env r w)).

Definition responseHeader {W : Type} (env : Env W) (r : Request) (w : W)
  : list (string * string) :=
  header (resp (snd (serve env r w))).

(** The error of a backend call that failed. *)
Definition callError (ev : Event) : option error :=
  match ev with
  | CreateMultipartUploadCall _ (inr e) => Some e
  | UploadPartCall _ (inr e) => Some e
  | CompleteMultipartUploadCall _ (inr e) => Some e
  | _ => None
  end.

(** The invariant of the part loop, with what it needs to tell why the loop
    ends: nothing is logged while the loop goes on, and the last part is only
    declared on a clean end of the body or on a read of zero bytes. *)
Definition loopInvPlus {W : Type} (mpu : CreateMultipartUploadOutput.t)
  (data : list byte) (fin : error) (st0 : State W)
  (v : LoopVars) (st : State W) : Prop :=
  loopInv mpu data fin st0 v st /\
  logged st = logged st0 /\
  (lastPart v = true ->
   fin = io_EOF \/ Z.of_nat (length data) mod minUploadPartSize = 0).

(** The loop was left by a [return], with the reason: a read error in the
    middle of a part, after all the whole parts were uploaded, or the refusal
    of a part by the backend.  Either way one error was logged. *)
Definition loopAbortedPlus {W : Type} (env : Env W)
  (mpu : CreateMultipartUploadOutput.t) (data : list byte) (fin : error)
  (st0 : State W) (st : State W) : Prop :=
  exists ups : list (UploadPartInput.t * UploadPartOutput.t),
    sliced mpu data ups /\
    resp st = with500 (resp st0) /\
    ((calls st = calls st0 ++ map ackEvent ups /\
      logged st = logged st0 ++ [fin] /\
      fin <> io_EOF /\
      Z.of_nat (length data) mod minUploadPartSize <> 0 /\
      Z.of_nat (length ups) = Z.of_nat (length data) / minUploadPartSize) \/
     (exists e w w',
         calls st = calls st0 ++ map ackEvent ups ++
                      [UploadPartCall (partInput mpu data (length ups)) (inr e)] /\
         logged st = logged st0 ++ [e] /\
         Z.of_nat (length ups) <= Z.of_nat (length data) / minUploadPartSize /\
         s3_UploadPart env (partInput mpu data (length ups)) w = (inr e, w'))).

(** The errors the handler logs once the completion call has been answered;
    [write] is the outcome of [w.Write] on the payload. *)
Definition answerLog {W : Type} (env : Env W)
  (reply : CompleteMultipartUploadOutput.t + error)
  (write : list byte -> option error) : list error :=
  match reply with
  | inr e => [e]
  | inl out =>
      match CompleteMultipartUploadOutput.Key out,
            CompleteMultipartUploadOutput.Location out with
      | Some key, Some url =>
          match json_Marshal env (mkMessage key [mkLink url]) with
          | inr e => [e]
          | inl b => match write b with Some e => [e] | None => [] end
          end
      | _, _ => []
      end
  end.

(** What a run leaves in the log, and what it tells about the body. *)
Definition runDetails {W : Type} (env : Env W) (r : Request) (w : W)
  (run : Run) : Prop :=
  responseHeader env r w = jsonHeader /\
  match run with
  | RunCreateFailed e => loggedErrors env r w = [e]
  | RunReadFailed mpu ups =>
      loggedErrors env r w = [final (Body r)] /\
      bodySize r mod minUploadPartSize <> 0 /\
      Z.of_nat (length ups) = bodySize r / minUploadPartSize
  | RunUploadFailed mpu ups e =>
      loggedErrors env r w = [e] /\
      Z.of_nat (length ups) <= bodySize r / minUploadPartSize
  | RunCompleted mpu ups reply =>
      (final (Body r) = io_EOF \/ bodySize r mod minUploadPartSize = 0) /\
      exists wa,
        loggedErrors env r w =
          answerLog env reply (fun b => fst (conn_Write env b wa))
  end.

(** A backend like [acceptingEnv] whose completion reply names no key. *)
Definition namelessEnv : Env nat :=
  mkEnv
    (bucket acceptingEnv)
    (uuid_New acceptingEnv)
    (s3_CreateMultipartUpload acceptingEnv)
    (s3_UploadPart acceptingEnv)
    (fun input w =>
       (inl (CompleteMultipartUploadOutput.mk
               None (Some "https://media.example/")), w))
    (json_Marshal acceptingEnv)
    (conn_Write acceptingEnv).

(** A backend like [acceptingEnv] that refuses to initiate uploads. *)
Definition refusingEnv : Env nat :=
  mkEnv
    (bucket acceptingEnv)
    (uuid_New acceptingEnv)
    (fun input w => (inr (other_error "access denied"), w))
    (s3_UploadPart acceptingEnv)
    (s3_CompleteMultipartUpload acceptingEnv)
    (json_Marshal acceptingEnv)
    (conn_Write acceptingEnv).

(** A POST request whose body breaks off with a transport error. *)
Definition broken (contentType : string) (data : list byte) : Request :=
  mkRequest "POST" [("Content-Type", contentType)] (-1)
    (mkReader data (other_error "unexpected EOF")).

(** What follows the initiation call in the upload of the three-byte image:
    one part, then the completion. *)
Definition smallUploadRest : list Event :=
  [UploadPartCall
     (UploadPartInput.mk (Some "media") (Some "uuid-0.png") 1 (Some "upload-1")
        [x89; x50; x4e] 3)
     (inl (UploadPartOutput.mk (Some "etag-1")));
   CompleteMultipartUploadCall smallUploadCompletion
     (inl (CompleteMultipartUploadOutput.mk
             (Some "uuid-0.png") (Some "https://media.example/uuid-0.png")))].

(** * Properties *)

(** ** Arithmetic and list facts *)

Lemma minUploadPartSize_pos : 0 < minUploadPartSize.
Proof. reflexivity. Qed.

Lemma wrap32_small (z : Z) : - 2 ^ 31 <= z <= MaxInt32 -> wrap32 z = z.
Proof.
  unfold wrap32, MaxInt32. intros H.
  rewrite Z.mod_small; lia.
Qed.

(** Past [MaxInt32] the part number wraps around to the least [int32]. *)
Lemma wrap32_overflow : wrap32 (MaxInt32 + 1) = - 2 ^ 31.
Proof. reflexivity. Qed.

Lemma wrap32_succ (a b : Z) : wrap32 (wrap32 a + b) = wrap32 (a + b).
Proof.
  unfold wrap32.
  replace ((a + 2 ^ 31) mod 2 ^ 32 - 2 ^ 31 + b + 2 ^ 31)
    with ((a + 2 ^ 31) mod 2 ^ 32 + b) by lia.
  rewrite Zplus_mod_idemp_l.
  do 2 f_equal. lia.
Qed.

Lemma limited_firstn_skipn (n : Z) (l : list byte) :
  limited n l = (firstn (Z.to_nat n) l, skipn (Z.to_nat n) l).
Proof.
  revert n. induction l as [|b l IH]; intros n; simpl.
  - now rewrite firstn_nil, skipn_nil.
  - destruct (Z.leb_spec n 0) as [Hn|Hn].
    + replace (Z.to_nat n) with O by lia. reflexivity.
    + rewrite IH.
      replace (Z.to_nat n) with (S (Z.to_nat (n - 1))) by lia.
      reflexivity.
Qed.

(** A full read: the source still holds [n] bytes. *)
Lemma io_CopyN_full (dst : list byte) (src : Reader) (n : Z) :
  0 < n -> n <= Z.of_nat (length (pending src)) ->
  io_CopyN dst src n =
    ((n, None), dst ++ firstn (Z.to_nat n) (pending src),
     mkReader (skipn (Z.to_nat n) (pending src)) (final src)).
Proof.
  intros Hpos Hlen. unfold io_CopyN.
  rewrite limited_firstn_skipn.
  rewrite length_firstn.
  replace (Z.of_nat (Nat.min (Z.to_nat n) (length (pending src)))) with n by lia.
  now rewrite Z.eqb_refl.
Qed.

(** A short read: the source ends first, and its final condition is
    reported. *)
Lemma io_CopyN_short (dst : list byte) (src : Reader) (n : Z) :
  Z.of_nat (length (pending src)) < n ->
  io_CopyN dst src n =
    ((Z.of_nat (length (pending src)), Some (final src)),
     dst ++ pending src, mkReader [] (final src)).
Proof.
  intros Hlen. unfold io_CopyN.
  rewrite limited_firstn_skipn.
  rewrite firstn_all2, skipn_all2 by lia.
  destruct (Z.eqb_spec (Z.of_nat (length (pending src))) n) as [E|E]; [lia|].
  destruct (Z.ltb_spec n (Z.of_nat (length (pending src)))); [lia|].
  reflexivity.
Qed.

(** ** One iteration of the part loop *)

Section LoopFacts.

Context {W : Type} (env : Env W).

Lemma readPart_full (v : LoopVars) (st : State W) :
  minUploadPartSize <= Z.of_nat (length (pending (body st))) ->
  readPart v st =
    (Next (mkLoopVars
             (buffer v ++ firstn (Z.to_nat minUploadPartSize) (pending (body st)))
             (completedParts v) (lastPart v) (partNumber v)),
     mkState (world st)
       (mkReader (skipn (Z.to_nat minUploadPartSize) (pending (body st)))
          (final (body st)))
       (calls st) (logged st) (resp st)).
Proof.
  intros Hlen. unfold readPart, bind, copy_from_body.
  rewrite io_CopyN_full by (auto using minUploadPartSize_pos).
  reflexivity.
Qed.

Lemma readPart_short (v : LoopVars) (st : State W) :
  Z.of_nat (length (pending (body st))) < minUploadPartSize ->
  readPart v st =
    if (Z.of_nat (length (pending (body st))) =? 0)
       || is_EOF (Some (final (body st)))
    then (Next (mkLoopVars (buffer v ++ pending (body st))
                  (completedParts v) true (partNumber v)),
          mkState (world st) (mkReader [] (final (body st)))
            (calls st) (logged st) (resp st))
    else (Return,
          mkState (world st) (mkReader [] (final (body st)))
            (calls st) (logged st ++ [final (body st)]) (with500 (resp st))).
Proof.
  intros Hlen. unfold readPart, bind, copy_from_body.
  rewrite io_CopyN_short by assumption.
  destruct ((Z.of_nat (length (pending (body st))) =? 0)
            || is_EOF (Some (final (body st)))); reflexivity.
Qed.

Lemma storePart_eq (mpu : CreateMultipartUploadOutput.t) (v : LoopVars)
  (st : State W) (input : UploadPartInput.t) :
  input =
    UploadPartInput.mk
      (CreateMultipartUploadOutput.Bucket mpu)
      (CreateMultipartUploadOutput.Key mpu)
      (partNumber v)
      (CreateMultipartUploadOutput.UploadId mpu)
      (buffer v) (Z.of_nat (length (buffer v))) ->
  storePart env mpu v st =
    match s3_UploadPart env input (world st) with
    | (inl output, w') =>
        (Next (mkLoopVars []
                 (completedParts v ++
                    [CompletedPart.mk (UploadPartOutput.ETag output) (partNumber v)])
                 (lastPart v) (wrap32 (partNumber v + 1))),
         mkState w' (body st) (calls st ++ [UploadPartCall input (inl output)])
           (logged st) (resp st))
    | (inr e, w') =>
        (Return,
         mkState w' (body st) (calls st ++ [UploadPartCall input (inr e)])
           (logged st ++ [e]) (with500 (resp st)))
    end.
Proof.
  intros ->. unfold storePart, bind, client_UploadPart.
  match goal with
  | |- context [s3_UploadPart env ?i ?w] =>
      destruct (s3_UploadPart env i w) as [[output|e] w']
  end; reflexivity.
Qed.

(** A Hoare-style rule for the loop: an invariant [I] kept by every
    iteration that continues, a postcondition [Q] for every iteration that
    returns, and a measure that decreases, give [I] with [lastPart] at the
    exit of the loop or [Q], and exclude running out of fuel. *)
Lemma uploadLoop_rule (mpu : CreateMultipartUploadOutput.t)
  (I : LoopVars -> State W -> Prop) (Q : State W -> Prop)
  (mu : State W -> nat) :
  (forall v st, I v st -> lastPart v = false ->
     match loopBody env mpu v st with
     | (Next v', st') => I v' st' /\ (lastPart v' = false -> (mu st' < mu st)%nat)
     | (Return, st') => Q st'
     | (Panic, _) | (Diverge, _) => False
     end) ->
  forall fuel v st, I v st -> (mu st < fuel)%nat ->
    match uploadLoop env fuel mpu v st with
    | (Next v', st') => I v' st' /\ lastPart v' = true
    | (Return, st') => Q st'
    | (Panic, _) | (Diverge, _) => False
    end.
Proof.
  intros Hstep. induction fuel as [|fuel IH]; intros v st HI Hmu; [lia|].
  simpl. destruct (lastPart v) eqn:Hlast.
  - unfold ret. auto.
  - specialize (Hstep v st HI Hlast). unfold bind.
    destruct (loopBody env mpu v st) as [[v'| | |] st']; try assumption.
    destruct Hstep as [HI' Hdec].
    destruct (lastPart v') eqn:Hlast'.
    + destruct fuel; simpl; rewrite Hlast'; unfold ret; auto.
    + apply IH; [assumption|]. specialize (Hdec eq_refl). lia.
Qed.

End LoopFacts.

(** ** The invariant of the part loop *)

Section LoopInvariant.

Context {W : Type} (env : Env W).
Variable mpu : CreateMultipartUploadOutput.t.
Variable data : list byte.
Variable fin : error.
Variable st0 : State W.

Lemma seq_snoc (k : nat) : seq 0 (S k) = seq 0 k ++ [k].
Proof. now rewrite seq_S. Qed.

Lemma div_between (n c k : Z) :
  0 < c -> k * c <= n -> n - k * c < c -> n / c = k.
Proof.
  intros Hc Hlo Hhi. symmetry.
  apply Z.div_unique with (r := n - k * c); lia.
Qed.

Lemma loopInv_step (v : LoopVars) (st : State W) :
  loopInv mpu data fin st0 v st -> lastPart v = false ->
  match loopBody env mpu v st with
  | (Next v', st') =>
      loopInv mpu data fin st0 v' st' /\
      (lastPart v' = false ->
       (length (pending (body st')) < length (pending (body st)))%nat)
  | (Return, st') => loopAborted env mpu data fin st0 st'
  | (Panic, _) | (Diverge, _) => False
  end.
Proof.
  intros (ups & Hin & Hcalls & Hparts & Hpn & Hbuf & Hresp & Hfin & Hgo & _) Hlast.
  destruct (Hgo Hlast) as [Hpend Hle]. clear Hgo.
  pose proof minUploadPartSize_pos as Hc.
  set (k := length ups) in *.
  assert (Hlen : Z.of_nat (length (pending (body st))) =
                 Z.of_nat (length data) - Z.of_nat k * minUploadPartSize).
  { rewrite Hpend, length_skipn. lia. }
  unfold loopBody, bind.
  destruct (Z.le_gt_cases minUploadPartSize (Z.of_nat (length (pending (body st)))))
    as [Hfull|Hshort].
  - (* a full part *)
    rewrite readPart_full by assumption.
    rewrite storePart_eq with (input := partInput mpu data k).
    2:{ unfold partInput, chunk. cbn [buffer partNumber].
        rewrite Hbuf, Hpn, Hpend. cbn [app]. reflexivity. }
    cbn [buffer completedParts lastPart partNumber world
           body calls logged resp].
    rewrite Hlast, Hpn.
    destruct (s3_UploadPart env (partInput mpu data k) (world st))
      as [[output|e] w'] eqn:Hreply.
    + split.
      * exists (ups ++ [(partInput mpu data k, output)]).
        rewrite length_app. cbn [length]. rewrite Nat.add_1_r. fold k.
        rewrite !map_app, seq_snoc, map_app. cbn [map fst snd].
        cbn [calls completedParts partNumber buffer resp body final pending lastPart].
        repeat split.
        -- now rewrite Hin.
        -- now rewrite Hcalls, <- app_assoc.
        -- now rewrite Hparts.
        -- rewrite wrap32_succ. f_equal. lia.
        -- assumption.
        -- assumption.
        -- rewrite Hpend, skipn_skipn. f_equal. lia.
        -- lia.
        -- discriminate.
      * intros _. cbn [body pending]. rewrite length_skipn.
        rewrite Hpend in Hfull |- *. lia.
    + exists ups, [UploadPartCall (partInput mpu data k) (inr e)].
      cbn [calls resp]. repeat split.
      * exact Hin.
      * now rewrite Hcalls, <- app_assoc.
      * now rewrite Hresp.
      * right. exists e, (world st), w'. fold k. auto.
  - (* the rest of the body *)
    rewrite readPart_short by assumption.
    destruct ((Z.of_nat (length (pending (body st))) =? 0)
              || is_EOF (Some (final (body st)))) eqn:Hstop.
    + assert (Hchunk : pending (body st) = chunk data k).
      { unfold chunk. rewrite <- Hpend. symmetry. apply firstn_all2. lia. }
      rewrite storePart_eq with (input := partInput mpu data k).
      2:{ unfold partInput. cbn [buffer partNumber].
          rewrite Hbuf, Hpn, Hchunk. cbn [app]. reflexivity. }
      cbn [buffer completedParts lastPart partNumber world
             body calls logged resp].
      rewrite Hpn.
      destruct (s3_UploadPart env (partInput mpu data k) (world st))
        as [[output|e] w'] eqn:Hreply.
      * split; [|discriminate].
        exists (ups ++ [(partInput mpu data k, output)]).
        rewrite length_app. cbn [length]. rewrite Nat.add_1_r. fold k.
        rewrite !map_app, seq_snoc, map_app. cbn [map fst snd].
        cbn [calls completedParts partNumber buffer resp body final pending lastPart].
        repeat split.
        -- now rewrite Hin.
        -- now rewrite Hcalls, <- app_assoc.
        -- now rewrite Hparts.
        -- rewrite wrap32_succ. f_equal. lia.
        -- assumption.
        -- assumption.
        -- discriminate.
        -- discriminate.
        -- intros _. rewrite div_between with (k := Z.of_nat k) by lia. lia.
      * exists ups, [UploadPartCall (partInput mpu data k) (inr e)].
        cbn [calls resp]. repeat split.
        -- exact Hin.
        -- now rewrite Hcalls, <- app_assoc.
        -- now rewrite Hresp.
        -- right. exists e, (world st), w'. fold k. auto.
    + exists ups, []. cbn [calls resp]. repeat split.
      * exact Hin.
      * now rewrite app_nil_r.
      * now rewrite Hresp.
      * left. apply orb_false_iff in Hstop. destruct Hstop as [Hnz Heof].
        split; [reflexivity|]. split.
        -- rewrite Hfin in Heof. intros ->. discriminate.
        -- fold k. apply Z.eqb_neq in Hnz. lia.
Qed.

End LoopInvariant.

Section Execution.

Context {W : Type} (env : Env W).

Lemma respond_answer (mpu : CreateMultipartUploadOutput.t)
  (ups : list (UploadPartInput.t * UploadPartOutput.t)) (st : State W) :
  status (resp st) = None -> written (resp st) = [] ->
  let reply := fst (s3_CompleteMultipartUpload env (completeInput mpu ups) (world st)) in
  let out := respond env mpu (map recordOf ups) st in
  calls (snd out) =
    calls st ++ [CompleteMultipartUploadCall (completeInput mpu ups) reply] /\
  (fst out, status (resp (snd out)), written (resp (snd out))) = answer env reply.
Proof.
  intros Hstatus Hwritten. cbv zeta.
  unfold respond, bind, client_CompleteMultipartUpload, deref, ret, panic,
    log_Println, w_WriteHeader, w_Write, return_.
  fold (completeInput mpu ups).
  destruct (s3_CompleteMultipartUpload env (completeInput mpu ups) (world st))
    as [[out|e] w'].
  - cbn [fst answer]. destruct out as [[key|] [url|]]; cbn.
    + destruct (json_Marshal env (mkMessage key [mkLink url])) as [b|e]; cbn.
      * rewrite Hstatus, Hwritten.
        destruct (conn_Write env b w') as [[e|] w'']; cbn; auto.
      * rewrite Hstatus, Hwritten; auto.
    + rewrite Hstatus, Hwritten; auto.
    + rewrite Hstatus, Hwritten; auto.
    + rewrite Hstatus, Hwritten; auto.
  - cbn. rewrite Hstatus, Hwritten; auto.
Qed.

Lemma serve_not_post (r : Request) (w : W) :
  Method r <> MethodPost ->
  serve env r w =
    (Return,
     mkState w (Body r) [] []
       (mkResponse [] (Some StatusMethodNotAllowed) [])).
Proof.
  intros Hm. unfold serve, FileHandler.
  destruct (String.eqb_spec (Method r) MethodPost) as [E|_]; [contradiction|].
  reflexivity.
Qed.

Lemma serve_unsupported (r : Request) (w : W) :
  Method r = MethodPost -> acceptedType (contentType r) = false ->
  serve env r w =
    (Return,
     mkState w (Body r) [] []
       (mkResponse jsonHeader (Some StatusUnsupportedMediaType) [])).
Proof.
  intros Hm Hct. unfold serve, FileHandler. rewrite Hm, String.eqb_refl.
  unfold acceptedType, contentType in Hct.
  apply orb_false_iff in Hct. destruct Hct as [Hi Hv].
  cbv zeta. rewrite Hi, Hv. reflexivity.
Qed.

Lemma serve_too_large (r : Request) (w : W) :
  Method r = MethodPost -> acceptedType (contentType r) = true ->
  maxContentSize < ContentLength r ->
  serve env r w =
    (Return,
     mkState w (Body r) [] []
       (mkResponse jsonHeader (Some StatusRequestEntityTooLarge) [])).
Proof.
  intros Hm Hct Hlen. unfold serve, FileHandler. rewrite Hm, String.eqb_refl.
  unfold acceptedType, contentType in Hct. cbv zeta.
  rewrite <- negb_orb, Hct. cbn [negb].
  destruct (Z.gtb_spec (ContentLength r) maxContentSize) as [_|H]; [|lia].
  reflexivity.
Qed.

(** The handler on an accepted request, with the prologue evaluated. *)
Lemma serve_accepted_eq (r : Request) (w : W) :
  Method r = MethodPost -> acceptedType (contentType r) = true ->
  ContentLength r <= maxContentSize ->
  serve env r w =
    let cin := createInput env r w in
    let w1 := snd (uuid_New env w) in
    let created := fst (s3_CreateMultipartUpload env cin w1) in
    let w2 := snd (s3_CreateMultipartUpload env cin w1) in
    match created with
    | inl mpu =>
        match uploadLoop env (loopFuel r) mpu (mkLoopVars [] [] false 1)
                (mkState w2 (Body r) [CreateMultipartUploadCall cin (inl mpu)] []
                   (mkResponse jsonHeader None []))
        with
        | (Next v, st) => respond env mpu (completedParts v) st
        | (Return, st) => (Return, st)
        | (Panic, st) => (Panic, st)
        | (Diverge, st) => (Diverge, st)
        end
    | inr e =>
        (Return,
         mkState w2 (Body r) [CreateMultipartUploadCall cin (inr e)] [e]
           (mkResponse jsonHeader (Some StatusInternalServerError) []))
    end.
Proof.
  intros Hm Hct Hlen. unfold serve, FileHandler.
  rewrite Hm, String.eqb_refl.
  unfold acceptedType, contentType in Hct. cbv zeta.
  rewrite <- negb_orb, Hct. cbn [negb].
  destruct (Z.gtb_spec (ContentLength r) maxContentSize) as [H|_]; [lia|].
  unfold createInput. fold (contentType r).
  cbv beta iota zeta delta [bind ret return_ new_uuid client_CreateMultipartUpload
    log_Println w_WriteHeader w_Header_Set initial emptyResponse
    world body calls logged resp header status written].
  destruct (uuid_New env w) as [u w1]. cbv beta iota delta [fst snd].
  match goal with
  | |- context [s3_CreateMultipartUpload env ?cin w1] =>
      destruct (s3_CreateMultipartUpload env cin w1) as [[mpu|e] w2]
  end; reflexivity.
Qed.

(** Every accepted request runs in one of the four ways of [Run]. *)
Lemma serve_accepted (r : Request) (w : W) :
  Method r = MethodPost -> acceptedType (contentType r) = true ->
  ContentLength r <= maxContentSize ->
  exists run,
    runOf env r w run /\
    backendCalls env r w = runTrace (createInput env r w) (pending (Body r)) run /\
    (outcome env r w, responded env r w, written (resp (snd (serve env r w))))
      = runAnswer env run.
Proof.
  intros Hm Hct Hlen.
  unfold backendCalls, responded, outcome.
  rewrite serve_accepted_eq by assumption. cbv zeta.
  unfold runOf. cbv zeta.
  set (cin := createInput env r w).
  destruct (s3_CreateMultipartUpload env cin (snd (uuid_New env w)))
    as [[mpu|e] w2] eqn:Hcreate; cbn [fst snd].
  - (* the upload was initiated *)
    set (st1 := mkState w2 (Body r) _ _ _).
    assert (Hloop :
      match uploadLoop env (loopFuel r) mpu (mkLoopVars [] [] false 1) st1 with
      | (Next v', st') =>
          loopInv mpu (pending (Body r)) (final (Body r)) st1 v' st' /\
          lastPart v' = true
      | (Return, st') =>
          loopAborted env mpu (pending (Body r)) (final (Body r)) st1 st'
      | (Panic, _) | (Diverge, _) => False
      end).
    { apply (@uploadLoop_rule W env mpu
               (loopInv mpu (pending (Body r)) (final (Body r)) st1)
               (loopAborted env mpu (pending (Body r)) (final (Body r)) st1)
               (fun st => length (pending (body st)))).
      - apply loopInv_step.
      - unfold loopInv. exists []. cbn.
        repeat split; try reflexivity; try lia; discriminate.
      - unfold loopFuel. cbn. lia. }
    revert Hloop.
    destruct (uploadLoop env (loopFuel r) mpu (mkLoopVars [] [] false 1) st1)
      as [[v| | |] st2]; intros Hloop; try contradiction.
    + destruct Hloop as [(ups & Hin & Hcalls & Hparts & _ & _ & Hresp & _ & _ & Hcount) Hlast].
      rewrite Hparts.
      destruct (respond_answer mpu ups st2) as [Hc Ha].
      { now rewrite Hresp. } { now rewrite Hresp. }
      exists (RunCompleted mpu ups
                (fst (s3_CompleteMultipartUpload env (completeInput mpu ups) (world st2)))).
      cbn [runTrace runAnswer]. repeat split.
      * eauto.
      * exact Hin.
      * apply Hcount, Hlast.
      * exists (world st2).
        destruct (s3_CompleteMultipartUpload env (completeInput mpu ups) (world st2));
          eauto.
      * rewrite Hc, Hcalls. reflexivity.
      * exact Ha.
    + destruct Hloop as (ups & tail & Hin & Hcalls & Hresp & Htail).
      cbn [fst snd]. rewrite Hcalls, Hresp.
      destruct Htail as [(-> & Hfin & Hrest)|(e & wa & wb & -> & He)].
      * exists (RunReadFailed mpu ups). cbn. rewrite app_nil_r.
        repeat split; eauto.
      * exists (RunUploadFailed mpu ups e). cbn. repeat split; eauto.
  - (* the backend refused to initiate the upload *)
    exists (RunCreateFailed e). cbn. repeat split; eauto.
Qed.

End Execution.

(** ** Reading traces *)

(** A trace that starts with the initiation call, seen as that call
    followed by the rest. *)
Ltac after_create :=
  change (CreateMultipartUploadCall ?c ?o :: ?l)
    with ([CreateMultipartUploadCall c o] ++ l).

(** A trace [first :: acks ++ last], seen as what comes before [last]
    followed by [last]. *)
Ltac before_last H :=
  change (CreateMultipartUploadCall ?c ?o :: ?l ++ ?x)
    with ((CreateMultipartUploadCall c o :: l) ++ x) in H.

Lemma uploadCalls_app (t1 t2 : list Event) :
  uploadCalls (t1 ++ t2) = uploadCalls t1 ++ uploadCalls t2.
Proof. apply flat_map_app. Qed.

Lemma completeCalls_app (t1 t2 : list Event) :
  completeCalls (t1 ++ t2) = completeCalls t1 ++ completeCalls t2.
Proof. apply flat_map_app. Qed.

Lemma acknowledged_app (t1 t2 : list Event) :
  acknowledged (t1 ++ t2) = acknowledged t1 ++ acknowledged t2.
Proof. apply flat_map_app. Qed.

Lemma uploadCalls_acks (ups : list (UploadPartInput.t * UploadPartOutput.t)) :
  uploadCalls (map ackEvent ups) = map fst ups.
Proof.
  unfold uploadCalls. induction ups as [|p ups IH]; simpl; [|rewrite IH]; reflexivity.
Qed.

Lemma completeCalls_acks (ups : list (UploadPartInput.t * UploadPartOutput.t)) :
  completeCalls (map ackEvent ups) = [].
Proof.
  unfold completeCalls. induction ups as [|p ups IH]; simpl; [|rewrite IH]; reflexivity.
Qed.

Lemma acknowledged_acks (ups : list (UploadPartInput.t * UploadPartOutput.t)) :
  acknowledged (map ackEvent ups) = map recordOf ups.
Proof.
  unfold acknowledged. induction ups as [|p ups IH]; simpl; [|rewrite IH]; reflexivity.
Qed.

Lemma recordOf_PartNumber (ups : list (UploadPartInput.t * UploadPartOutput.t)) :
  map CompletedPart.PartNumber (map recordOf ups) =
  map UploadPartInput.PartNumber (map fst ups).
Proof. rewrite !map_map. reflexivity. Qed.

(** A trace that ends right after the first event of its kind. *)
Lemma last_event_unique (l pre post : list Event) (x y : Event) :
  ~ In y l -> l ++ [x] = pre ++ y :: post -> post = [] /\ pre = l /\ x = y.
Proof.
  revert pre. induction l as [|a l IH]; intros pre Hnot Heq.
  - destruct pre as [|p pre]; cbn in Heq.
    + injection Heq as -> <-. auto.
    + injection Heq as _ Heq. destruct pre; discriminate.
  - destruct pre as [|p pre]; cbn in Heq.
    + injection Heq as -> _. exfalso. apply Hnot. now left.
    + injection Heq as -> Heq.
      destruct (IH pre) as (-> & -> & ->); auto.
      intros Hin. apply Hnot. now right.
Qed.

Lemma ack_is_not_failure (ups : list (UploadPartInput.t * UploadPartOutput.t))
  (input : UploadPartInput.t) (e : error) :
  ~ In (UploadPartCall input (inr e)) (map ackEvent ups).
Proof.
  intros Hin. apply in_map_iff in Hin. destruct Hin as (p & Hp & _).
  discriminate.
Qed.

Lemma ack_is_not_completion (ups : list (UploadPartInput.t * UploadPartOutput.t))
  (input : CompleteMultipartUploadInput.t)
  (reply : CompleteMultipartUploadOutput.t + error) :
  ~ In (CompleteMultipartUploadCall input reply) (map ackEvent ups).
Proof.
  intros Hin. apply in_map_iff in Hin. destruct Hin as (p & Hp & _).
  discriminate.
Qed.

(** ** Part numbers and part sizes *)

Lemma numbered_from_1 (k : nat) :
  Z.of_nat k <= MaxInt32 ->
  map (fun i => wrap32 (Z.of_nat i + 1)) (seq 0 k) = countingFrom1 k.
Proof.
  intros Hk. unfold countingFrom1. rewrite <- seq_shift, map_map.
  apply map_ext_in. intros i Hi. apply in_seq in Hi.
  rewrite wrap32_small; unfold MaxInt32 in *; lia.
Qed.

Lemma sliced_PartNumber (mpu : CreateMultipartUploadOutput.t) (data : list byte)
  (ups : list (UploadPartInput.t * UploadPartOutput.t)) :
  sliced mpu data ups ->
  map UploadPartInput.PartNumber (map fst ups) =
  map (fun i => wrap32 (Z.of_nat i + 1)) (seq 0 (length ups)).
Proof. intros ->. rewrite map_map. reflexivity. Qed.

Lemma sliced_Body (mpu : CreateMultipartUploadOutput.t) (data : list byte)
  (ups : list (UploadPartInput.t * UploadPartOutput.t)) :
  sliced mpu data ups ->
  map UploadPartInput.Body (map fst ups) = map (chunk data) (seq 0 (length ups)).
Proof. intros ->. rewrite map_map. reflexivity. Qed.

(** The size of a slice: a whole part while the body lasts, then the rest. *)
Lemma chunk_length (data : list byte) (k : nat) :
  Z.of_nat (length (chunk data k)) =
  Z.max 0 (Z.min minUploadPartSize
             (Z.of_nat (length data) - Z.of_nat k * minUploadPartSize)).
Proof.
  pose proof minUploadPartSize_pos. unfold chunk.
  assert (0 <= Z.of_nat k * minUploadPartSize) by (apply Z.mul_nonneg_nonneg; lia).
  rewrite length_firstn, length_skipn. lia.
Qed.

Lemma chunk_full (data : list byte) (k : nat) :
  Z.of_nat k < Z.of_nat (length data) / minUploadPartSize ->
  Z.of_nat (length (chunk data k)) = minUploadPartSize.
Proof.
  pose proof minUploadPartSize_pos as Hc. intros Hk.
  rewrite chunk_length.
  pose proof (Z.mul_div_le (Z.of_nat (length data)) minUploadPartSize Hc).
  assert ((Z.of_nat k + 1) * minUploadPartSize <=
          minUploadPartSize * (Z.of_nat (length data) / minUploadPartSize)) by nia.
  lia.
Qed.

Lemma chunk_rest (data : list byte) (k : nat) :
  Z.of_nat k = Z.of_nat (length data) / minUploadPartSize ->
  Z.of_nat (length (chunk data k)) = Z.of_nat (length data) mod minUploadPartSize.
Proof.
  pose proof minUploadPartSize_pos as Hc. intros Hk.
  rewrite chunk_length, Hk.
  pose proof (Z.mod_pos_bound (Z.of_nat (length data)) minUploadPartSize Hc).
  pose proof (Z.div_mod (Z.of_nat (length data)) minUploadPartSize ltac:(lia)).
  lia.
Qed.

(** The sizes of the slices of a body of [n] bytes: [n / minUploadPartSize]
    whole parts, then the remainder. *)
Lemma chunk_sizes (data : list byte) (k : nat) :
  Z.of_nat k = Z.of_nat (length data) / minUploadPartSize + 1 ->
  map (fun i => Z.of_nat (length (chunk data i))) (seq 0 k) =
  repeat minUploadPartSize (k - 1) ++
    [Z.of_nat (length data) mod minUploadPartSize].
Proof.
  intros Hk. pose proof minUploadPartSize_pos as Hc.
  assert (0 <= Z.of_nat (length data) / minUploadPartSize)
    by (apply Z.div_pos; lia).
  destruct k as [|q]; [lia|].
  rewrite seq_snoc, map_app. cbn [map]. f_equal.
  - replace (S q - 1)%nat with q by lia.
    rewrite <- (length_seq q 0) at 2. rewrite <- map_const.
    apply map_ext_in. intros i Hi. apply in_seq in Hi.
    apply chunk_full. lia.
  - f_equal. apply chunk_rest. lia.
Qed.

Lemma ceilDiv_inexact (n c : Z) :
  0 < c -> n mod c <> 0 -> n / c + 1 = ceilDiv n c.
Proof.
  intros Hc Hr. unfold ceilDiv.
  pose proof (Z.mod_pos_bound n c Hc).
  pose proof (Z.div_mod n c ltac:(lia)).
  apply Z.div_unique with (r := n mod c - 1); lia.
Qed.

Lemma ceilDiv_exact (n c : Z) :
  0 < c -> n mod c = 0 -> n / c = ceilDiv n c.
Proof.
  intros Hc Hr. unfold ceilDiv.
  pose proof (Z.div_mod n c ltac:(lia)).
  apply Z.div_unique with (r := c - 1); lia.
Qed.

(** ** Classifying executions *)

Section Classification.

Context {W : Type} (env : Env W).

(** A request is either turned away before any backend call, or accepted
    and run in one of the ways of [Run]. *)
Lemma serve_cases (r : Request) (w : W) :
  (backendCalls env r w = [] /\
   outcome env r w = Return /\
   (responded env r w = Some StatusMethodNotAllowed \/
    responded env r w = Some StatusUnsupportedMediaType \/
    responded env r w = Some StatusRequestEntityTooLarge)) \/
  (exists run,
      runOf env r w run /\
      backendCalls env r w =
        runTrace (createInput env r w) (pending (Body r)) run /\
      (outcome env r w, responded env r w, written (resp (snd (serve env r w))))
        = runAnswer env run).
Proof.
  destruct (String.eqb_spec (Method r) MethodPost) as [Hm|Hm].
  - destruct (acceptedType (contentType r)) eqn:Hct.
    + destruct (Z.le_gt_cases (ContentLength r) maxContentSize) as [Hlen|Hlen].
      * right. now apply serve_accepted.
      * left. unfold backendCalls, responded, outcome.
        rewrite serve_too_large by (auto; lia). cbn. auto.
    + left. unfold backendCalls, responded, outcome.
      rewrite serve_unsupported by auto. cbn. auto.
  - left. unfold backendCalls, responded, outcome.
    rewrite serve_not_post by auto. cbn. auto.
Qed.

(** The handler always ends: by a [return], or by the panic of a nil
    dereference when a successful completion reply names no key or no
    location.  The fuel given to the loop is never exhausted. *)
Lemma handler_always_ends (r : Request) (w : W) :
  outcome env r w = Return \/ outcome env r w = Panic.
Proof.
  destruct (serve_cases r w) as [(_ & Ho & _)|(run & _ & _ & Hanswer)];
    [now left|].
  assert (Ho : outcome env r w = fst (fst (runAnswer env run)))
    by now rewrite <- Hanswer.
  rewrite Ho.
  destruct run as [e|mpu ups|mpu ups e|mpu ups [[[key|] [url|]]|e]]; cbn; auto.
  destruct (json_Marshal env (mkMessage key [mkLink url])); cbn; auto.
Qed.

(** With a backend that accepts every call and a body that ends cleanly,
    the only way to run is to completion.  So it is for an empty body, however
    it ends: a read of zero bytes always marks the last part. *)
Lemma successful_run (r : Request) (w : W) (run : Run) :
  runOf env r w run -> backendSucceeds env ->
  final (Body r) = io_EOF \/ bodySize r = 0 ->
  exists mpu ups key url,
    run = RunCompleted mpu ups
            (inl (CompleteMultipartUploadOutput.mk (Some key) (Some url))) /\
    sliced mpu (pending (Body r)) ups /\
    Z.of_nat (length ups) = bodySize r / minUploadPartSize + 1 /\
    (exists w', s3_CreateMultipartUpload env (createInput env r w)
                  (snd (uuid_New env w)) = (inl mpu, w')) /\
    (exists w1 w2,
        s3_CompleteMultipartUpload env (completeInput mpu ups) w1 =
          (inl (CompleteMultipartUploadOutput.mk (Some key) (Some url)), w2)).
Proof.
  intros Hrun (Hcreate & Hupload & Hcomplete) Hfin.
  destruct run as [e|mpu ups|mpu ups e|mpu ups reply]; cbn in Hrun.
  - destruct Hrun as [w' H].
    destruct (Hcreate (createInput env r w) (snd (uuid_New env w))) as (o & w'' & H').
    congruence.
  - destruct Hrun as (_ & _ & Hne & Hrest).
    destruct Hfin as [Hfin|Hfin]; [contradiction|].
    pose proof minUploadPartSize_pos.
    assert (0 <= Z.of_nat (length ups) * minUploadPartSize)
      by (apply Z.mul_nonneg_nonneg; lia).
    lia.
  - destruct Hrun as (_ & _ & w1 & w2 & H).
    destruct (Hupload (partInput mpu (pending (Body r)) (length ups)) w1)
      as (o & w'' & H').
    congruence.
  - destruct Hrun as (Hc & Hs & Hn & w1 & w2 & H).
    destruct (Hcomplete (completeInput mpu ups) w1) as (key & url & w'' & H').
    exists mpu, ups, key, url.
    assert (reply = inl (CompleteMultipartUploadOutput.mk (Some key) (Some url)))
      as -> by congruence.
    repeat split; eauto.
Qed.

(** The trace and the answer of an accepted request served by such a
    backend. *)
Lemma serve_success (r : Request) (w : W) :
  Method r = MethodPost -> acceptedType (contentType r) = true ->
  ContentLength r <= maxContentSize ->
  final (Body r) = io_EOF \/ bodySize r = 0 ->
  backendSucceeds env ->
  exists mpu ups key url,
    sliced mpu (pending (Body r)) ups /\
    Z.of_nat (length ups) = bodySize r / minUploadPartSize + 1 /\
    (exists w', s3_CreateMultipartUpload env (createInput env r w)
                  (snd (uuid_New env w)) = (inl mpu, w')) /\
    (exists w1 w2,
        s3_CompleteMultipartUpload env (completeInput mpu ups) w1 =
          (inl (CompleteMultipartUploadOutput.mk (Some key) (Some url)), w2)) /\
    backendCalls env r w =
      CreateMultipartUploadCall (createInput env r w) (inl mpu) ::
        map ackEvent ups ++
        [CompleteMultipartUploadCall (completeInput mpu ups)
           (inl (CompleteMultipartUploadOutput.mk (Some key) (Some url)))] /\
    (outcome env r w, responded env r w, written (resp (snd (serve env r w)))) =
      match json_Marshal env (mkMessage key [mkLink url]) with
      | inl b => (Return, Some StatusCreated, b)
      | inr _ => (Return, Some StatusInternalServerError, [])
      end.
Proof.
  intros Hm Hct Hlen Hfin Henv.
  destruct (serve_accepted env r w Hm Hct Hlen) as (run & Hrun & Htrace & Hanswer).
  destruct (successful_run r w run Hrun Henv Hfin)
    as (mpu & ups & key & url & -> & Hs & Hk & Hc & Hd).
  exists mpu, ups, key, url. repeat split; assumption.
Qed.

(** The upload-part calls of a completed run are those of its uploads. *)
Lemma uploadCalls_completed (cin : CreateMultipartUploadInput.t)
  (mpu : CreateMultipartUploadOutput.t)
  (ups : list (UploadPartInput.t * UploadPartOutput.t))
  (input : CompleteMultipartUploadInput.t)
  (reply : CompleteMultipartUploadOutput.t + error) :
  uploadCalls
    (CreateMultipartUploadCall cin (inl mpu) ::
       map ackEvent ups ++ [CompleteMultipartUploadCall input reply]) =
  map fst ups.
Proof.
  after_create.
  rewrite !uploadCalls_app, uploadCalls_acks. cbn [uploadCalls flat_map app].
  apply app_nil_r.
Qed.

(** The number of upload-part calls made for a body of [n] bytes. *)
Lemma upload_count (r : Request) (w : W) :
  Method r = MethodPost -> acceptedType (contentType r) = true ->
  ContentLength r <= maxContentSize -> final (Body r) = io_EOF ->
  backendSucceeds env ->
  Z.of_nat (length (uploadCalls (backendCalls env r w))) =
    bodySize r / minUploadPartSize + 1.
Proof.
  intros Hm Hct Hlen Hfin Henv.
  destruct (serve_success r w Hm Hct Hlen (or_introl Hfin) Henv)
    as (mpu & ups & key & url & Hs & Hk & _ & _ & -> & _).
  rewrite uploadCalls_completed, length_map. exact Hk.
Qed.

(** The sizes of the parts uploaded for a body of [n] bytes: whole parts,
    then the remainder. *)
Lemma upload_sizes (r : Request) (w : W) :
  Method r = MethodPost -> acceptedType (contentType r) = true ->
  ContentLength r <= maxContentSize -> final (Body r) = io_EOF ->
  backendSucceeds env ->
  map (fun u => Z.of_nat (length (UploadPartInput.Body u)))
    (uploadCalls (backendCalls env r w)) =
  repeat minUploadPartSize (Z.to_nat (bodySize r / minUploadPartSize)) ++
    [bodySize r mod minUploadPartSize].
Proof.
  intros Hm Hct Hlen Hfin Henv.
  destruct (serve_success r w Hm Hct Hlen (or_introl Hfin) Henv)
    as (mpu & ups & key & url & Hs & Hk & _ & _ & -> & _).
  rewrite uploadCalls_completed.
  rewrite <- (map_map UploadPartInput.Body (fun b => Z.of_nat (length b))).
  rewrite (sliced_Body mpu _ ups Hs), map_map.
  unfold bodySize in *. rewrite chunk_sizes by exact Hk.
  do 2 f_equal. lia.
Qed.

End Classification.

(** ** The concrete environment and requests *)

Lemma acceptingEnv_succeeds : backendSucceeds acceptingEnv.
Proof.
  repeat split; intros input w.
  - eexists _, _. reflexivity.
  - eexists _, _. reflexivity.
  - eexists _, _, _. reflexivity.
Qed.

Lemma acceptingEnv_echoes : backendEchoesKey acceptingEnv.
Proof.
  split; intros input w output w' key Hcall Hkey; cbn in Hcall;
    injection Hcall as <- _; cbn; [|rewrite Hkey]; congruence.
Qed.

Lemma acceptingEnv_marshals : marshalSucceeds acceptingEnv.
Proof. intros m. eexists. reflexivity. Qed.

Lemma post_Method (ct : string) (declared : Z) (data : list byte) :
  Method (post ct declared data) = MethodPost.
Proof. reflexivity. Qed.

Lemma post_contentType (ct : string) (declared : Z) (data : list byte) :
  contentType (post ct declared data) = ct.
Proof. reflexivity. Qed.

Lemma post_bodySize (ct : string) (declared : Z) (data : list byte) :
  bodySize (post ct declared data) = Z.of_nat (length data).
Proof. reflexivity. Qed.

(** ** Requests turned away *)

(** C9: a request whose method is not POST is answered 405 Method Not
    Allowed, and no backend call is made. *)
Theorem other_methods_not_allowed {W : Type} (env : Env W) (r : Request) (w : W) :
  Method r <> MethodPost ->
  responded env r w = Some StatusMethodNotAllowed /\
  StatusMethodNotAllowed = 405 /\
  backendCalls env r w = [].
Proof.
  intros Hm. unfold responded, backendCalls.
  rewrite serve_not_post by assumption. cbn. auto.
Qed.

Lemma other_methods_not_allowed_witness :
  Method (mkRequest "GET" [] 0 (mkReader [] io_EOF)) <> MethodPost /\
  responded acceptingEnv (mkRequest "GET" [] 0 (mkReader [] io_EOF)) 0%nat
    = Some StatusMethodNotAllowed /\
  StatusMethodNotAllowed = 405 /\
  backendCalls acceptingEnv (mkRequest "GET" [] 0 (mkReader [] io_EOF)) 0%nat = [].
Proof.
  split; [discriminate|].
  apply (other_methods_not_allowed acceptingEnv
           (mkRequest "GET" [] 0 (mkReader [] io_EOF)) 0%nat).
  discriminate.
Defined.

(** C6: a POST request whose content type begins neither with "image/" nor
    with "video/" is answered 415 Unsupported Media Type, and no backend call
    (initiate, upload-part or complete) is made. *)
Theorem unsupported_media_type {W : Type} (env : Env W) (r : Request) (w : W) :
  Method r = MethodPost ->
  String.prefix "image/" (contentType r) = false ->
  String.prefix "video/" (contentType r) = false ->
  responded env r w = Some StatusUnsupportedMediaType /\
  StatusUnsupportedMediaType = 415 /\
  backendCalls env r w = [].
Proof.
  intros Hm Hi Hv. unfold responded, backendCalls.
  rewrite serve_unsupported; [cbn; auto|assumption|].
  unfold acceptedType. now rewrite Hi, Hv.
Qed.

Lemma unsupported_media_type_witness :
  Method (post "text/plain" 5 [x68; x65; x6c; x6c; x6f]) = MethodPost /\
  String.prefix "image/" (contentType (post "text/plain" 5 [x68; x65; x6c; x6c; x6f])) = false /\
  String.prefix "video/" (contentType (post "text/plain" 5 [x68; x65; x6c; x6c; x6f])) = false /\
  responded acceptingEnv (post "text/plain" 5 [x68; x65; x6c; x6c; x6f]) 0%nat
    = Some StatusUnsupportedMediaType /\
  StatusUnsupportedMediaType = 415 /\
  backendCalls acceptingEnv (post "text/plain" 5 [x68; x65; x6c; x6c; x6f]) 0%nat = [].
Proof.
  repeat (split; [reflexivity|]).
  apply (unsupported_media_type acceptingEnv
           (post "text/plain" 5 [x68; x65; x6c; x6c; x6f]) 0%nat);
    reflexivity.
Defined.

(** C7, as the handler has it: a POST request with an accepted content type
    whose declared length is greater than 2500 MiB is answered 413 Request
    Entity Too Large, and no backend call is made.  The content type is
    checked first (line 44), the declared length second (line 48). *)
Theorem too_large_is_rejected {W : Type} (env : Env W) (r : Request) (w : W) :
  Method r = MethodPost ->
  acceptedType (contentType r) = true ->
  2500 * 1024 * 1024 < ContentLength r ->
  responded env r w = Some StatusRequestEntityTooLarge /\
  StatusRequestEntityTooLarge = 413 /\
  backendCalls env r w = [].
Proof.
  intros Hm Hct Hlen. unfold responded, backendCalls.
  rewrite serve_too_large; [cbn; auto|assumption|assumption|].
  unfold maxContentSize. lia.
Qed.

Lemma too_large_is_rejected_witness :
  Method (post "video/webm" 3000000000 []) = MethodPost /\
  acceptedType (contentType (post "video/webm" 3000000000 [])) = true /\
  2500 * 1024 * 1024 < ContentLength (post "video/webm" 3000000000 []) /\
  responded acceptingEnv (post "video/webm" 3000000000 []) 0%nat
    = Some StatusRequestEntityTooLarge /\
  StatusRequestEntityTooLarge = 413 /\
  backendCalls acceptingEnv (post "video/webm" 3000000000 []) 0%nat = [].
Proof.
  repeat (split; [reflexivity|]).
  apply (too_large_is_rejected acceptingEnv (post "video/webm" 3000000000 []) 0%nat);
    reflexivity.
Defined.

(** C7 as stated fails: a POST request declaring 3000000000 bytes (more than
    2500 MiB) with content type text/plain is answered 415, not 413. *)
Lemma oversized_text_is_415 :
  Method (post "text/plain" 3000000000 []) = MethodPost /\
  maxContentSize < ContentLength (post "text/plain" 3000000000 []) /\
  responded acceptingEnv (post "text/plain" 3000000000 []) 0%nat
    = Some StatusUnsupportedMediaType /\
  responded acceptingEnv (post "text/plain" 3000000000 []) 0%nat
    <> Some StatusRequestEntityTooLarge.
Proof.
  repeat (split; [reflexivity|]). discriminate.
Qed.

(** ** Requests accepted *)

Lemma runAnswer_status {W : Type} (env : Env W) (run : Run) :
  snd (fst (runAnswer env run)) = None \/
  snd (fst (runAnswer env run)) = Some StatusCreated \/
  snd (fst (runAnswer env run)) = Some StatusInternalServerError.
Proof.
  destruct run as [e|mpu ups|mpu ups e|mpu ups [[[key|] [url|]]|e]]; cbn; auto.
  destruct (json_Marshal env (mkMessage key [mkLink url])); cbn; auto.
Qed.

Lemma runTrace_starts_with_create (cin : CreateMultipartUploadInput.t)
  (data : list byte) (run : Run) :
  exists reply rest,
    runTrace cin data run = CreateMultipartUploadCall cin reply :: rest.
Proof. destruct run; cbn; eauto. Qed.

(** C8: a POST request with an accepted content type and no declared length
    (a negative [ContentLength]) is not answered 413: the handler goes on to
    initiate the upload. *)
Theorem unknown_length_is_passed_through {W : Type} (env : Env W)
  (r : Request) (w : W) :
  Method r = MethodPost ->
  acceptedType (contentType r) = true ->
  ContentLength r < 0 ->
  responded env r w <> Some StatusRequestEntityTooLarge /\
  exists reply rest,
    backendCalls env r w =
      CreateMultipartUploadCall (createInput env r w) reply :: rest.
Proof.
  intros Hm Hct Hlen.
  destruct (serve_accepted env r w Hm Hct) as (run & _ & Htrace & Hanswer).
  { unfold maxContentSize. lia. }
  split.
  - assert (Hs : responded env r w = snd (fst (runAnswer env run)))
      by now rewrite <- Hanswer.
    rewrite Hs.
    destruct (runAnswer_status env run) as [->|[->| ->]]; discriminate.
  - rewrite Htrace. apply runTrace_starts_with_create.
Qed.

Lemma unknown_length_is_passed_through_witness :
  Method (post "image/gif" (-1) [x47; x49; x46]) = MethodPost /\
  acceptedType (contentType (post "image/gif" (-1) [x47; x49; x46])) = true /\
  ContentLength (post "image/gif" (-1) [x47; x49; x46]) < 0 /\
  responded acceptingEnv (post "image/gif" (-1) [x47; x49; x46]) 0%nat
    <> Some StatusRequestEntityTooLarge /\
  exists reply rest,
    backendCalls acceptingEnv (post "image/gif" (-1) [x47; x49; x46]) 0%nat =
      CreateMultipartUploadCall
        (createInput acceptingEnv (post "image/gif" (-1) [x47; x49; x46]) 0%nat)
        reply :: rest.
Proof.
  repeat (split; [reflexivity|]).
  apply (unknown_length_is_passed_through acceptingEnv
           (post "image/gif" (-1) [x47; x49; x46]) 0%nat);
    reflexivity.
Defined.

Lemma append_empty (s : string) : String.append s "" = s.
Proof. induction s as [|a s IH]; cbn; [|rewrite IH]; reflexivity. Qed.

Lemma only_padded_mp4_maps_to_mp4 (ct : string) :
  filenameExtension ct = ".mp4" -> ct = "video/mp4 ".
Proof.
  unfold filenameExtension.
  repeat match goal with
         | |- context [String.eqb ct ?s] =>
             destruct (String.eqb_spec ct s); [try discriminate; auto|]
         end.
  discriminate.
Qed.

(** C10: the content-type switch gives no extension to "video/mp4" (".mp4"
    is given to "video/mp4 ", with a trailing space, and to nothing else), so
    the key of an upload declared as video/mp4 is the bare UUID; the other
    seven types of the switch get their extensions. *)
Theorem mp4_upload_has_no_suffix {W : Type} (env : Env W) (r : Request) (w : W) :
  Method r = MethodPost ->
  contentType r = "video/mp4" ->
  ContentLength r <= maxContentSize ->
  filenameExtension "video/mp4" = "" /\
  filenameExtension "video/mp4 " = ".mp4" /\
  (forall ct, filenameExtension ct = ".mp4" -> ct = "video/mp4 ") /\
  (exists reply rest,
      backendCalls env r w =
        CreateMultipartUploadCall
          (CreateMultipartUploadInput.mk
             (Some (bucket env)) (Some (fst (uuid_New env w)))
             ObjectCannedACLPrivate (Some "video/mp4"))
          reply :: rest) /\
  filenameExtension "image/gif" = ".gif" /\
  filenameExtension "image/jpeg" = ".jpeg" /\
  filenameExtension "image/png" = ".png" /\
  filenameExtension "image/tiff" = ".tiff" /\
  filenameExtension "video/quicktime" = ".mov" /\
  filenameExtension "video/mpeg" = ".mpeg" /\
  filenameExtension "video/webm" = ".webm".
Proof.
  intros Hm Hct Hlen.
  do 2 (split; [reflexivity|]).
  split; [exact only_padded_mp4_maps_to_mp4|].
  split; [|repeat split; reflexivity].
  destruct (serve_accepted env r w Hm) as (run & _ & Htrace & _);
    [now rewrite Hct|assumption|].
  rewrite Htrace. unfold createInput. rewrite Hct.
  change (filenameExtension "video/mp4") with "".
  rewrite append_empty. apply runTrace_starts_with_create.
Qed.

Lemma mp4_upload_has_no_suffix_witness :
  exists reply rest,
    backendCalls acceptingEnv (post "video/mp4" 0 []) 0%nat =
      CreateMultipartUploadCall
        (CreateMultipartUploadInput.mk
           (Some "media") (Some "uuid-0") "private" (Some "video/mp4"))
        reply :: rest.
Proof.
  apply (mp4_upload_has_no_suffix acceptingEnv (post "video/mp4" 0 []) 0%nat);
    [reflexivity|reflexivity|discriminate].
Defined.

(** ** Uploads that complete *)

Lemma chunk_nil (k : nat) : chunk [] k = [].
Proof. unfold chunk. now rewrite skipn_nil, firstn_nil. Qed.

Lemma sliced_one (mpu : CreateMultipartUploadOutput.t) (data : list byte)
  (ups : list (UploadPartInput.t * UploadPartOutput.t)) :
  sliced mpu data ups -> length ups = 1%nat ->
  exists o1, ups = [(partInput mpu data 0, o1)].
Proof.
  intros Hs Hk. destruct ups as [|[u1 o1] [|p ups]]; try discriminate.
  unfold sliced in Hs. cbn [map seq length fst] in Hs.
  injection Hs as ->. eauto.
Qed.

Lemma sliced_three (mpu : CreateMultipartUploadOutput.t) (data : list byte)
  (ups : list (UploadPartInput.t * UploadPartOutput.t)) :
  sliced mpu data ups -> length ups = 3%nat ->
  exists o1 o2 o3,
    ups = [(partInput mpu data 0, o1); (partInput mpu data 1, o2);
           (partInput mpu data 2, o3)].
Proof.
  intros Hs Hk.
  destruct ups as [|[u1 o1] [|[u2 o2] [|[u3 o3] [|p ups]]]]; try discriminate.
  unfold sliced in Hs. cbn [map seq length fst] in Hs.
  injection Hs as -> -> ->. eauto.
Qed.

(** C3: for a POST request with an accepted content type and an empty body,
    served by a backend whose calls succeed, the handler makes exactly one
    upload-part call, for part 1 and with zero-length content, then one
    complete-multipart call with the single record of that part, and answers
    201 with the reference of the object. *)
Theorem empty_body_is_one_empty_part {W : Type} (env : Env W)
  (r : Request) (w : W) :
  Method r = MethodPost ->
  acceptedType (contentType r) = true ->
  ContentLength r <= maxContentSize ->
  pending (Body r) = [] ->
  backendSucceeds env ->
  marshalSucceeds env ->
  exists mpu output key url payload,
    backendCalls env r w =
      [CreateMultipartUploadCall (createInput env r w) (inl mpu);
       UploadPartCall
         (UploadPartInput.mk
            (CreateMultipartUploadOutput.Bucket mpu)
            (CreateMultipartUploadOutput.Key mpu)
            1
            (CreateMultipartUploadOutput.UploadId mpu)
            [] 0)
         (inl output);
       CompleteMultipartUploadCall
         (CompleteMultipartUploadInput.mk
            (CreateMultipartUploadOutput.Bucket mpu)
            (CreateMultipartUploadOutput.Key mpu)
            (CreateMultipartUploadOutput.UploadId mpu)
            [CompletedPart.mk (UploadPartOutput.ETag output) 1])
         (inl (CompleteMultipartUploadOutput.mk (Some key) (Some url)))] /\
    outcome env r w = Return /\
    responded env r w = Some StatusCreated /\
    StatusCreated = 201 /\
    json_Marshal env (mkMessage key [mkLink url]) = inl payload /\
    written (resp (snd (serve env r w))) = payload.
Proof.
  intros Hm Hct Hlen Hempty Henv Hjson.
  assert (Hsize : bodySize r = 0) by (unfold bodySize; now rewrite Hempty).
  destruct (serve_success env r w Hm Hct Hlen (or_intror Hsize) Henv)
    as (mpu & ups & key & url & Hs & Hk & _ & _ & Htrace & Hanswer).
  rewrite Hsize, Z.div_0_l in Hk by (pose proof minUploadPartSize_pos; lia).
  destruct (sliced_one mpu (pending (Body r)) ups Hs) as [o1 ->]; [lia|].
  destruct (Hjson (mkMessage key [mkLink url])) as [payload Hpayload].
  rewrite Hpayload in Hanswer. injection Hanswer as Ho Hr Hw.
  exists mpu, o1, key, url, payload.
  rewrite Htrace, Hempty. unfold completeInput, partInput.
  rewrite chunk_nil. repeat split; assumption.
Qed.

Lemma empty_body_is_one_empty_part_witness :
  Method (post "video/mp4" 0 []) = MethodPost /\
  acceptedType (contentType (post "video/mp4" 0 [])) = true /\
  pending (Body (post "video/mp4" 0 [])) = [] /\
  map UploadPartInput.Body
    (uploadCalls (backendCalls acceptingEnv (post "video/mp4" 0 []) 0%nat)) = [[]] /\
  responded acceptingEnv (post "video/mp4" 0 []) 0%nat = Some 201.
Proof.
  do 3 (split; [reflexivity|]).
  destruct (empty_body_is_one_empty_part acceptingEnv (post "video/mp4" 0 []) 0%nat)
    as (mpu & output & key & url & payload & Ht & _ & Hr & _);
    [reflexivity|reflexivity|discriminate|reflexivity
    |exact acceptingEnv_succeeds|exact acceptingEnv_marshals|].
  rewrite Ht. split; [reflexivity|exact Hr].
Defined.

Lemma twelveMiB_length : Z.of_nat (length twelveMiB) = 12 * 1024 * 1024.
Proof. unfold twelveMiB. rewrite repeat_length, Z2Nat.id; lia. Qed.

(** C2: a POST request of type image/png whose body has 12 MiB and ends
    cleanly, served by a backend whose calls succeed and which names objects
    by the key it is given, leads to exactly three upload-part calls, for
    parts 1, 2, 3 holding the successive slices of the body, of 5 MiB, 5 MiB
    and 2 MiB, then to one complete-multipart call with the three records,
    and is answered 201 with a key ending in ".png". *)
Theorem twelve_mebibytes_make_three_parts {W : Type} (env : Env W)
  (r : Request) (w : W) :
  Method r = MethodPost ->
  contentType r = "image/png" ->
  ContentLength r <= maxContentSize ->
  final (Body r) = io_EOF ->
  bodySize r = 12 * 1024 * 1024 ->
  backendSucceeds env ->
  backendEchoesKey env ->
  marshalSucceeds env ->
  minUploadPartSize = 5 * 1024 * 1024 /\
  exists mpu u1 u2 u3 o1 o2 o3 url payload,
    backendCalls env r w =
      [CreateMultipartUploadCall (createInput env r w) (inl mpu);
       UploadPartCall u1 (inl o1);
       UploadPartCall u2 (inl o2);
       UploadPartCall u3 (inl o3);
       CompleteMultipartUploadCall
         (CompleteMultipartUploadInput.mk
            (CreateMultipartUploadOutput.Bucket mpu)
            (CreateMultipartUploadOutput.Key mpu)
            (CreateMultipartUploadOutput.UploadId mpu)
            [CompletedPart.mk (UploadPartOutput.ETag o1) 1;
             CompletedPart.mk (UploadPartOutput.ETag o2) 2;
             CompletedPart.mk (UploadPartOutput.ETag o3) 3])
         (inl (CompleteMultipartUploadOutput.mk
                 (Some (String.append (fst (uuid_New env w)) ".png"))
                 (Some url)))] /\
    map UploadPartInput.PartNumber [u1; u2; u3] = [1; 2; 3] /\
    map UploadPartInput.Body [u1; u2; u3] =
      map (chunk (pending (Body r))) [0%nat; 1%nat; 2%nat] /\
    map (fun u => Z.of_nat (length (UploadPartInput.Body u))) [u1; u2; u3] =
      [5 * 1024 * 1024; 5 * 1024 * 1024; 2 * 1024 * 1024] /\
    map UploadPartInput.ContentLength [u1; u2; u3] =
      [5 * 1024 * 1024; 5 * 1024 * 1024; 2 * 1024 * 1024] /\
    responded env r w = Some StatusCreated /\
    StatusCreated = 201 /\
    json_Marshal env
      (mkMessage (String.append (fst (uuid_New env w)) ".png") [mkLink url])
      = inl payload /\
    written (resp (snd (serve env r w))) = payload.
Proof.
  intros Hm Hct Hlen Hfin Hsize Henv [Hecho1 Hecho2] Hjson.
  split; [reflexivity|].
  assert (Hacc : acceptedType (contentType r) = true) by now rewrite Hct.
  destruct (serve_success env r w Hm Hacc Hlen (or_introl Hfin) Henv)
    as (mpu & ups & key & url & Hs & Hk & (w1 & Hcreate) & (wa & wb & Hcomplete)
        & Htrace & Hanswer).
  rewrite Hsize in Hk.
  change (12 * 1024 * 1024 / minUploadPartSize + 1) with 3 in Hk.
  destruct (sliced_three mpu (pending (Body r)) ups Hs) as (o1 & o2 & o3 & ->);
    [lia|].
  (* the key travels from the first call to the answer *)
  assert (Hkey1 : CreateMultipartUploadOutput.Key mpu =
                  Some (String.append (fst (uuid_New env w)) ".png")).
  { apply (Hecho1 _ _ _ _ _ Hcreate). unfold createInput. cbn.
    now rewrite Hct. }
  assert (Hkey2 : key = String.append (fst (uuid_New env w)) ".png").
  { specialize (Hecho2 _ _ _ _ _ Hcomplete Hkey1). cbn in Hecho2. congruence. }
  subst key.
  destruct (Hjson (mkMessage (String.append (fst (uuid_New env w)) ".png")
                     [mkLink url])) as [payload Hpayload].
  rewrite Hpayload in Hanswer. injection Hanswer as Ho Hr Hw.
  (* the sizes of the three slices *)
  pose proof (chunk_sizes (pending (Body r)) 3) as Hsizes.
  fold (bodySize r) in Hsizes. rewrite Hsize in Hsizes.
  specialize (Hsizes eq_refl).
  change (12 * 1024 * 1024 mod minUploadPartSize) with (2 * 1024 * 1024) in Hsizes.
  change minUploadPartSize with (5 * 1024 * 1024) in Hsizes at 1.
  cbn [seq map repeat app Nat.sub] in Hsizes.
  exists mpu, (partInput mpu (pending (Body r)) 0),
    (partInput mpu (pending (Body r)) 1), (partInput mpu (pending (Body r)) 2),
    o1, o2, o3, url, payload.
  rewrite Htrace. unfold completeInput.
  cbn [map app ackEvent recordOf fst snd partInput
         UploadPartInput.PartNumber UploadPartInput.Body
         UploadPartInput.ContentLength].
  repeat split; try assumption; try reflexivity.
Qed.

Lemma twelve_mebibytes_make_three_parts_witness :
  bodySize (post "image/png" (12 * 1024 * 1024) twelveMiB) = 12 * 1024 * 1024 /\
  map UploadPartInput.PartNumber
    (uploadCalls
       (backendCalls acceptingEnv
          (post "image/png" (12 * 1024 * 1024) twelveMiB) 0%nat)) = [1; 2; 3] /\
  responded acceptingEnv (post "image/png" (12 * 1024 * 1024) twelveMiB) 0%nat
    = Some StatusCreated.
Proof.
  assert (Hsize : bodySize (post "image/png" (12 * 1024 * 1024) twelveMiB)
                  = 12 * 1024 * 1024)
    by (rewrite post_bodySize; exact twelveMiB_length).
  split; [exact Hsize|].
  destruct (twelve_mebibytes_make_three_parts acceptingEnv
              (post "image/png" (12 * 1024 * 1024) twelveMiB) 0%nat)
    as (_ & mpu & u1 & u2 & u3 & o1 & o2 & o3 & url & payload
        & Ht & Hn & _ & _ & _ & Hr & _);
    [reflexivity|reflexivity|discriminate|reflexivity|exact Hsize
    |exact acceptingEnv_succeeds|exact acceptingEnv_echoes
    |exact acceptingEnv_marshals|].
  rewrite Ht. cbn [uploadCalls flat_map app].
  split; [exact Hn|exact Hr].
Defined.

Lemma oneFullPart_length : Z.of_nat (length oneFullPart) = minUploadPartSize.
Proof.
  unfold oneFullPart. rewrite repeat_length, Z2Nat.id; [reflexivity|].
  pose proof minUploadPartSize_pos. lia.
Qed.

(** C1, as the handler has it: for a POST request with an accepted content
    type and a body of [n] bytes that ends cleanly, served by a backend whose
    calls succeed, the handler makes [n / minUploadPartSize + 1] upload-part
    calls: [n / minUploadPartSize] whole parts, then a last part with the
    remaining [n mod minUploadPartSize] bytes.  That is the ceiling of
    [n / minUploadPartSize] when [n] is not a multiple of the part size, and
    one more (a last part of zero bytes) when it is; for [n = 0] it is one
    call of zero bytes.  The complete-multipart call comes last and receives
    as many records, numbered 1, 2, ... in order as long as the count fits
    the [int32] part number. *)
Theorem parts_uploaded_for_a_body {W : Type} (env : Env W) (r : Request) (w : W) :
  Method r = MethodPost ->
  acceptedType (contentType r) = true ->
  ContentLength r <= maxContentSize ->
  final (Body r) = io_EOF ->
  backendSucceeds env ->
  let n := bodySize r in
  let t := backendCalls env r w in
  Z.of_nat (length (uploadCalls t)) = n / minUploadPartSize + 1 /\
  (n mod minUploadPartSize <> 0 ->
   n / minUploadPartSize + 1 = ceilDiv n minUploadPartSize) /\
  (n mod minUploadPartSize = 0 ->
   n / minUploadPartSize + 1 = ceilDiv n minUploadPartSize + 1) /\
  map (fun u => Z.of_nat (length (UploadPartInput.Body u))) (uploadCalls t) =
    repeat minUploadPartSize (Z.to_nat (n / minUploadPartSize)) ++
      [n mod minUploadPartSize] /\
  (n = 0 -> map UploadPartInput.Body (uploadCalls t) = [[]]) /\
  exists pre input reply,
    t = pre ++ [CompleteMultipartUploadCall input reply] /\
    completeCalls pre = [] /\
    length (CompleteMultipartUploadInput.Parts input) = length (uploadCalls t) /\
    (n / minUploadPartSize + 1 <= MaxInt32 ->
     map CompletedPart.PartNumber (CompleteMultipartUploadInput.Parts input) =
       countingFrom1 (length (uploadCalls t))).
Proof.
  intros Hm Hct Hlen Hfin Henv n t. subst n t.
  pose proof minUploadPartSize_pos as Hc.
  split; [now apply upload_count|].
  split; [apply ceilDiv_inexact; exact Hc|].
  split; [intros H0; f_equal; apply ceilDiv_exact; assumption|].
  split; [now apply upload_sizes|].
  destruct (serve_success env r w Hm Hct Hlen (or_introl Hfin) Henv)
    as (mpu & ups & key & url & Hs & Hk & _ & _ & Htrace & _).
  rewrite Htrace, uploadCalls_completed, length_map.
  split.
  - intros Hn. rewrite Hn, Z.div_0_l in Hk by lia.
    destruct (sliced_one mpu (pending (Body r)) ups Hs) as [o1 ->]; [lia|].
    unfold bodySize in Hn.
    assert (Hnil : pending (Body r) = [])
      by (apply length_zero_iff_nil; lia).
    rewrite Hnil. cbn [map fst partInput UploadPartInput.Body].
    now rewrite chunk_nil.
  - exists (CreateMultipartUploadCall (createInput env r w) (inl mpu)
              :: map ackEvent ups),
      (completeInput mpu ups),
      (inl (CompleteMultipartUploadOutput.mk (Some key) (Some url))).
    split; [reflexivity|].
    split.
    + after_create. now rewrite completeCalls_app, completeCalls_acks.
    + cbn [completeInput CompleteMultipartUploadInput.Parts].
      rewrite !length_map. split; [reflexivity|]. intros Hfit.
      rewrite recordOf_PartNumber, (sliced_PartNumber mpu _ ups Hs).
      apply numbered_from_1. lia.
Qed.

Lemma parts_uploaded_for_a_body_witness :
  acceptedType (contentType (post "image/jpeg" 3 [xff; xd8; xff])) = true /\
  Z.of_nat
    (length (uploadCalls
               (backendCalls acceptingEnv (post "image/jpeg" 3 [xff; xd8; xff])
                  0%nat))) =
    bodySize (post "image/jpeg" 3 [xff; xd8; xff]) / minUploadPartSize + 1.
Proof.
  split; [reflexivity|].
  refine (proj1 (parts_uploaded_for_a_body acceptingEnv
                   (post "image/jpeg" 3 [xff; xd8; xff]) 0%nat
                   eq_refl eq_refl _ eq_refl acceptingEnv_succeeds)).
  discriminate.
Defined.

(** C1 as stated fails: for a body of exactly [minUploadPartSize] bytes
    (5 MiB), of type image/png, with every backend call succeeding, the
    ceiling of [n / minUploadPartSize] is 1, and the handler makes 2
    upload-part calls: one of 5 MiB, then one of zero bytes. *)
Lemma exact_multiple_takes_an_extra_part :
  acceptedType (contentType (post "image/png" minUploadPartSize oneFullPart))
    = true /\
  backendSucceeds acceptingEnv /\
  bodySize (post "image/png" minUploadPartSize oneFullPart) = 5 * 1024 * 1024 /\
  ceilDiv (bodySize (post "image/png" minUploadPartSize oneFullPart))
    minUploadPartSize = 1 /\
  Z.of_nat
    (length (uploadCalls
               (backendCalls acceptingEnv
                  (post "image/png" minUploadPartSize oneFullPart) 0%nat))) = 2 /\
  map (fun u => Z.of_nat (length (UploadPartInput.Body u)))
    (uploadCalls
       (backendCalls acceptingEnv
          (post "image/png" minUploadPartSize oneFullPart) 0%nat)) =
    [5 * 1024 * 1024; 0].
Proof.
  assert (Hsize : bodySize (post "image/png" minUploadPartSize oneFullPart)
                  = minUploadPartSize)
    by (rewrite post_bodySize; exact oneFullPart_length).
  split; [reflexivity|].
  split; [exact acceptingEnv_succeeds|].
  split; [rewrite Hsize; reflexivity|].
  split; [rewrite Hsize; reflexivity|].
  split.
  - rewrite upload_count;
      [|reflexivity|reflexivity|discriminate|reflexivity
       |exact acceptingEnv_succeeds].
    rewrite Hsize. reflexivity.
  - rewrite upload_sizes;
      [|reflexivity|reflexivity|discriminate|reflexivity
       |exact acceptingEnv_succeeds].
    rewrite Hsize. reflexivity.
Qed.

(** ** Uploads that fail, and what completion receives *)

Lemma in_create_acks (cin : CreateMultipartUploadInput.t)
  (created : CreateMultipartUploadOutput.t + error)
  (ups : list (UploadPartInput.t * UploadPartOutput.t)) (ev : Event) :
  In ev (CreateMultipartUploadCall cin created :: map ackEvent ups) ->
  ev = CreateMultipartUploadCall cin created \/
  exists p, In p ups /\ ev = ackEvent p.
Proof.
  intros [H|H]; [now left|right].
  apply in_map_iff in H. destruct H as (p & <- & Hp). eauto.
Qed.

Lemma no_failure_before_the_end (cin : CreateMultipartUploadInput.t)
  (created : CreateMultipartUploadOutput.t + error)
  (ups : list (UploadPartInput.t * UploadPartOutput.t))
  (input : UploadPartInput.t) (e : error) :
  ~ In (UploadPartCall input (inr e))
      (CreateMultipartUploadCall cin created :: map ackEvent ups).
Proof.
  intros H. apply in_create_acks in H.
  destruct H as [H|(p & _ & H)]; discriminate.
Qed.

Lemma no_completion_before_the_end (cin : CreateMultipartUploadInput.t)
  (created : CreateMultipartUploadOutput.t + error)
  (ups : list (UploadPartInput.t * UploadPartOutput.t))
  (input : CompleteMultipartUploadInput.t)
  (reply : CompleteMultipartUploadOutput.t + error) :
  ~ In (CompleteMultipartUploadCall input reply)
      (CreateMultipartUploadCall cin created :: map ackEvent ups).
Proof.
  intros H. apply in_create_acks in H.
  destruct H as [H|(p & _ & H)]; discriminate.
Qed.

(** C4: whenever an upload-part call fails, whatever its part number, it is
    the last backend call of the request (no further upload-part call, no
    complete-multipart call), and the request is answered 500. *)
Theorem failed_part_ends_the_upload {W : Type} (env : Env W) (r : Request)
  (w : W) (pre post : list Event) (input : UploadPartInput.t) (e : error) :
  backendCalls env r w = pre ++ UploadPartCall input (inr e) :: post ->
  post = [] /\
  completeCalls (backendCalls env r w) = [] /\
  responded env r w = Some StatusInternalServerError /\
  StatusInternalServerError = 500.
Proof.
  intros Heq.
  destruct (serve_cases env r w) as [[Hnil _]|(run & Hrun & Htrace & Hanswer)].
  { rewrite Hnil in Heq. destruct pre; discriminate. }
  assert (Hin : In (UploadPartCall input (inr e)) (backendCalls env r w))
    by (rewrite Heq; apply in_elt).
  rewrite Htrace in Heq, Hin |- *.
  destruct run as [e'|mpu ups|mpu ups e'|mpu ups reply]; cbn [runTrace] in *.
  - destruct Hin as [H|[]]; discriminate.
  - exfalso. exact (no_failure_before_the_end _ _ _ _ _ Hin).
  - before_last Heq.
    apply last_event_unique in Heq; [|apply no_failure_before_the_end].
    destruct Heq as (-> & _ & _).
    split; [reflexivity|]. split.
    + after_create.
      now rewrite !completeCalls_app, completeCalls_acks.
    + cbn in Hanswer. injection Hanswer as _ Hr _. auto.
  - exfalso.
    before_last Hin.
    apply in_app_or in Hin. destruct Hin as [Hin|[Hin|[]]]; [|discriminate].
    exact (no_failure_before_the_end _ _ _ _ _ Hin).
Qed.

Lemma failed_part_ends_the_upload_witness :
  backendCalls (failingAtPart 1) (post "video/mp4" 0 []) 0%nat =
    refusedUploadTrace ++
      UploadPartCall refusedPart (inr (other_error "upload refused")) :: [] /\
  completeCalls (backendCalls (failingAtPart 1) (post "video/mp4" 0 []) 0%nat) = [] /\
  responded (failingAtPart 1) (post "video/mp4" 0 []) 0%nat = Some 500.
Proof.
  split; [reflexivity|].
  destruct (failed_part_ends_the_upload (failingAtPart 1) (post "video/mp4" 0 [])
              0%nat refusedUploadTrace [] refusedPart
              (other_error "upload refused") eq_refl)
    as (_ & Hc & Hr & _).
  split; [exact Hc|exact Hr].
Defined.

(** C5: in every execution that reaches the complete-multipart call, that
    call is the last one, and the records it carries are those of the parts
    the backend acknowledged before it: in the order of the upload-part
    calls, each with the part number sent and the integrity token returned by
    that very call, and no upload-part call is left out.  The part numbers
    are those of a counter started at 1 and incremented once per part:
    1, 2, 3, ... without gap or repetition, as long as the count fits the
    [int32] part number. *)
Theorem completion_lists_the_acknowledged_parts {W : Type} (env : Env W)
  (r : Request) (w : W) (pre post : list Event)
  (input : CompleteMultipartUploadInput.t)
  (reply : CompleteMultipartUploadOutput.t + error) :
  backendCalls env r w = pre ++ CompleteMultipartUploadCall input reply :: post ->
  let parts := CompleteMultipartUploadInput.Parts input in
  post = [] /\
  parts = acknowledged pre /\
  length parts = length (uploadCalls pre) /\
  map CompletedPart.PartNumber parts =
    map UploadPartInput.PartNumber (uploadCalls pre) /\
  map CompletedPart.PartNumber parts =
    map (fun i => wrap32 (Z.of_nat i + 1)) (seq 0 (length parts)) /\
  (Z.of_nat (length parts) <= MaxInt32 ->
   map CompletedPart.PartNumber parts = countingFrom1 (length parts)) /\
  (forall record, In record parts ->
     exists sent output,
       In (UploadPartCall sent (inl output)) pre /\
       UploadPartInput.PartNumber sent = CompletedPart.PartNumber record /\
       UploadPartOutput.ETag output = CompletedPart.ETag record).
Proof.
  intros Heq parts. subst parts.
  destruct (serve_cases env r w) as [[Hnil _]|(run & Hrun & Htrace & _)].
  { rewrite Hnil in Heq. destruct pre; discriminate. }
  assert (Hin : In (CompleteMultipartUploadCall input reply) (backendCalls env r w))
    by (rewrite Heq; apply in_elt).
  rewrite Htrace in Heq, Hin.
  destruct run as [e'|mpu ups|mpu ups e'|mpu ups reply']; cbn [runTrace] in *.
  - destruct Hin as [H|[]]; discriminate.
  - exfalso. exact (no_completion_before_the_end _ _ _ _ _ Hin).
  - exfalso.
    before_last Hin.
    apply in_app_or in Hin. destruct Hin as [Hin|[Hin|[]]]; [|discriminate].
    exact (no_completion_before_the_end _ _ _ _ _ Hin).
  - before_last Heq.
    apply last_event_unique in Heq; [|apply no_completion_before_the_end].
    destruct Heq as (-> & -> & Hev). injection Hev as <- _.
    destruct Hrun as (_ & Hs & _).
    assert (Hup : uploadCalls
                    (CreateMultipartUploadCall (createInput env r w) (inl mpu)
                       :: map ackEvent ups) = map fst ups).
    { after_create. now rewrite uploadCalls_app, uploadCalls_acks. }
    assert (Hack : acknowledged
                     (CreateMultipartUploadCall (createInput env r w) (inl mpu)
                        :: map ackEvent ups) = map recordOf ups).
    { after_create. now rewrite acknowledged_app, acknowledged_acks. }
    rewrite Hup, Hack. cbn [completeInput CompleteMultipartUploadInput.Parts].
    rewrite !length_map, recordOf_PartNumber.
    repeat split; try reflexivity.
    + exact (sliced_PartNumber mpu _ ups Hs).
    + intros Hfit. rewrite (sliced_PartNumber mpu _ ups Hs).
      now apply numbered_from_1.
    + intros record Hrec. apply in_map_iff in Hrec.
      destruct Hrec as ([sent output] & <- & Hp).
      exists sent, output. split; [|split; reflexivity].
      right. apply in_map_iff. exists (sent, output). auto.
Qed.

Lemma completion_lists_the_acknowledged_parts_witness :
  backendCalls acceptingEnv (post "image/png" 3 [x89; x50; x4e]) 0%nat =
    smallUploadTrace ++
      CompleteMultipartUploadCall smallUploadCompletion
        (inl (CompleteMultipartUploadOutput.mk
                (Some "uuid-0.png") (Some "https://media.example/uuid-0.png")))
      :: [] /\
  CompleteMultipartUploadInput.Parts smallUploadCompletion =
    acknowledged smallUploadTrace /\
  map CompletedPart.PartNumber
    (CompleteMultipartUploadInput.Parts smallUploadCompletion) = [1].
Proof.
  split; [reflexivity|].
  destruct (completion_lists_the_acknowledged_parts acceptingEnv
              (post "image/png" 3 [x89; x50; x4e]) 0%nat
              smallUploadTrace [] smallUploadCompletion
              (inl (CompleteMultipartUploadOutput.mk
                      (Some "uuid-0.png")
                      (Some "https://media.example/uuid-0.png")))
              eq_refl)
    as (_ & Hparts & _ & _ & _ & Hnum & _).
  split; [exact Hparts|]. apply Hnum. discriminate.
Defined.

(** * Further properties of the handler *)

(** ** The part loop, with the reason why it ends *)

Section LoopEnd.

Context {W : Type} (env : Env W).
Variable mpu : CreateMultipartUploadOutput.t.
Variable data : list byte.
Variable fin : error.
Variable st0 : State W.

Lemma mod_between (n c k : Z) :
  0 < c -> k * c <= n -> n - k * c < c -> n mod c = n - k * c.
Proof.
  intros Hc Hlo Hhi. symmetry.
  apply Z.mod_unique with (q := k); lia.
Qed.

Lemma loopInvPlus_step (v : LoopVars) (st : State W) :
  loopInvPlus mpu data fin st0 v st -> lastPart v = false ->
  match loopBody env mpu v st with
  | (Next v', st') =>
      loopInvPlus mpu data fin st0 v' st' /\
      (lastPart v' = false ->
       (length (pending (body st')) < length (pending (body st)))%nat)
  | (Return, st') => loopAbortedPlus env mpu data fin st0 st'
  | (Panic, _) | (Diverge, _) => False
  end.
Proof.
  intros (HI & Hlog & _) Hlast.
  pose proof (loopInv_step env mpu data fin st0 v st HI Hlast) as Hstep.
  destruct HI as (ups & Hin & Hcalls & Hparts & Hpn & Hbuf & Hresp & Hfin & Hgo & _).
  destruct (Hgo Hlast) as [Hpend Hle]. clear Hgo.
  pose proof minUploadPartSize_pos as Hc.
  set (k := length ups) in *.
  assert (Hlen : Z.of_nat (length (pending (body st))) =
                 Z.of_nat (length data) - Z.of_nat k * minUploadPartSize).
  { rewrite Hpend, length_skipn. lia. }
  assert (Hk : Z.of_nat k <= Z.of_nat (length data) / minUploadPartSize)
    by (apply Z.div_le_lower_bound; lia).
  revert Hstep. unfold loopBody, bind.
  destruct (Z.le_gt_cases minUploadPartSize (Z.of_nat (length (pending (body st)))))
    as [Hfull|Hshort].
  - (* a full part *)
    rewrite readPart_full by assumption.
    rewrite storePart_eq with (input := partInput mpu data k).
    2:{ unfold partInput, chunk. cbn [buffer partNumber].
        rewrite Hbuf, Hpn, Hpend. cbn [app]. reflexivity. }
    cbn [buffer completedParts lastPart partNumber world
           body calls logged resp].
    destruct (s3_UploadPart env (partInput mpu data k) (world st))
      as [[output|e] w'] eqn:Hreply.
    + intros [HI' Hdec]. split; [|exact Hdec].
      split; [exact HI'|]. cbn [logged lastPart].
      split; [exact Hlog|]. rewrite Hlast. discriminate.
    + intros _. exists ups. split; [exact Hin|]. cbn [calls resp logged].
      split; [now rewrite Hresp|]. right.
      exists e, (world st), w'. fold k.
      rewrite Hcalls, Hlog, <- app_assoc. auto.
  - (* the rest of the body *)
    rewrite readPart_short by assumption.
    destruct ((Z.of_nat (length (pending (body st))) =? 0)
              || is_EOF (Some (final (body st)))) eqn:Hstop.
    + assert (Hchunk : pending (body st) = chunk data k).
      { unfold chunk. rewrite <- Hpend. symmetry. apply firstn_all2. lia. }
      rewrite storePart_eq with (input := partInput mpu data k).
      2:{ unfold partInput. cbn [buffer partNumber].
          rewrite Hbuf, Hpn, Hchunk. cbn [app]. reflexivity. }
      cbn [buffer completedParts lastPart partNumber world
             body calls logged resp].
      destruct (s3_UploadPart env (partInput mpu data k) (world st))
        as [[output|e] w'] eqn:Hreply.
      * intros [HI' Hdec]. split; [|exact Hdec].
        split; [exact HI'|]. cbn [logged lastPart].
        split; [exact Hlog|]. intros _.
        apply orb_true_iff in Hstop. destruct Hstop as [Hz|Heof].
        -- right. apply Z.eqb_eq in Hz.
           rewrite (mod_between _ _ (Z.of_nat k)); lia.
        -- left. rewrite <- Hfin.
           destruct (final (body st)); [reflexivity|discriminate].
      * intros _. exists ups. split; [exact Hin|]. cbn [calls resp logged].
        split; [now rewrite Hresp|]. right.
        exists e, (world st), w'. fold k.
        rewrite Hcalls, Hlog, <- app_assoc. auto.
    + intros _. exists ups. split; [exact Hin|]. cbn [calls resp logged body final].
      split; [now rewrite Hresp|]. left.
      apply orb_false_iff in Hstop. destruct Hstop as [Hnz Heof].
      apply Z.eqb_neq in Hnz.
      rewrite Hcalls, Hlog, Hfin. repeat split.
      * rewrite Hfin in Heof. intros ->. discriminate.
      * rewrite (mod_between _ _ (Z.of_nat k)); lia.
      * fold k. symmetry. apply div_between; lia.
Qed.

End LoopEnd.

(** ** The executions of an accepted request, with their log *)

Section Details.

Context {W : Type} (env : Env W).

Lemma respond_details (mpu : CreateMultipartUploadOutput.t)
  (ups : list (UploadPartInput.t * UploadPartOutput.t)) (st : State W) :
  let call := s3_CompleteMultipartUpload env (completeInput mpu ups) (world st) in
  let out := respond env mpu (map recordOf ups) st in
  header (resp (snd out)) = header (resp st) /\
  logged (snd out) =
    logged st ++ answerLog env (fst call) (fun b => fst (conn_Write env b (snd call))).
Proof.
  cbv zeta.
  unfold respond, bind, client_CompleteMultipartUpload, deref, ret, panic,
    log_Println, w_WriteHeader, w_Write, return_.
  fold (completeInput mpu ups).
  destruct (s3_CompleteMultipartUpload env (completeInput mpu ups) (world st))
    as [[out|e] w'].
  - cbn [fst snd answerLog]. destruct out as [[key|] [url|]]; cbn.
    + destruct (json_Marshal env (mkMessage key [mkLink url])) as [b|e]; cbn.
      * destruct (conn_Write env b w') as [[e|] w'']; cbn;
          now rewrite ?app_nil_r.
      * auto.
    + now rewrite app_nil_r.
    + now rewrite app_nil_r.
    + now rewrite app_nil_r.
  - cbn. auto.
Qed.

(** Every accepted request runs in one of the four ways of [Run], and the
    run tells what is logged and how the body ended. *)
Lemma serve_accepted_details (r : Request) (w : W) :
  Method r = MethodPost -> acceptedType (contentType r) = true ->
  ContentLength r <= maxContentSize ->
  exists run,
    runOf env r w run /\
    backendCalls env r w = runTrace (createInput env r w) (pending (Body r)) run /\
    (outcome env r w, responded env r w, written (resp (snd (serve env r w))))
      = runAnswer env run /\
    runDetails env r w run.
Proof.
  intros Hm Hct Hlen. pose proof minUploadPartSize_pos as Hc.
  unfold runDetails, loggedErrors, responseHeader, backendCalls, responded, outcome.
  rewrite serve_accepted_eq by assumption. cbv zeta.
  unfold runOf. cbv zeta.
  set (cin := createInput env r w).
  destruct (s3_CreateMultipartUpload env cin (snd (uuid_New env w)))
    as [[mpu|e] w2] eqn:Hcreate; cbn [fst snd].
  - set (st1 := mkState w2 (Body r) _ _ _).
    assert (Hloop :
      match uploadLoop env (loopFuel r) mpu (mkLoopVars [] [] false 1) st1 with
      | (Next v', st') =>
          loopInvPlus mpu (pending (Body r)) (final (Body r)) st1 v' st' /\
          lastPart v' = true
      | (Return, st') =>
          loopAbortedPlus env mpu (pending (Body r)) (final (Body r)) st1 st'
      | (Panic, _) | (Diverge, _) => False
      end).
    { apply (@uploadLoop_rule W env mpu
               (loopInvPlus mpu (pending (Body r)) (final (Body r)) st1)
               (loopAbortedPlus env mpu (pending (Body r)) (final (Body r)) st1)
               (fun st => length (pending (body st)))).
      - apply loopInvPlus_step.
      - split; [|split; [reflexivity|discriminate]].
        unfold loopInv. exists []. cbn.
        repeat split; try reflexivity; try lia; discriminate.
      - unfold loopFuel. cbn. lia. }
    revert Hloop.
    destruct (uploadLoop env (loopFuel r) mpu (mkLoopVars [] [] false 1) st1)
      as [[v| | |] st2]; intros Hloop; try contradiction.
    + destruct Hloop as [(HI & Hlog & Hend) Hlast].
      destruct HI as (ups & Hin & Hcalls & Hparts & _ & _ & Hresp & _ & _ & Hcount).
      rewrite Hparts.
      destruct (respond_answer env mpu ups st2) as [Hca Ha].
      { now rewrite Hresp. } { now rewrite Hresp. }
      destruct (respond_details mpu ups st2) as [Hh Hl].
      exists (RunCompleted mpu ups
                (fst (s3_CompleteMultipartUpload env (completeInput mpu ups) (world st2)))).
      cbn [runTrace runAnswer]. repeat split.
      * eauto.
      * exact Hin.
      * apply Hcount, Hlast.
      * exists (world st2).
        destruct (s3_CompleteMultipartUpload env (completeInput mpu ups) (world st2));
          eauto.
      * rewrite Hca, Hcalls. reflexivity.
      * exact Ha.
      * rewrite Hh, Hresp. reflexivity.
      * apply Hend, Hlast.
      * exists (snd (s3_CompleteMultipartUpload env (completeInput mpu ups) (world st2))).
        rewrite Hl, Hlog. reflexivity.
    + destruct Hloop as (ups & Hin & Hresp & Hwhy).
      cbn [fst snd]. rewrite Hresp.
      destruct Hwhy as [(Hcalls & Hlog & Hfin & Hmod & Hk)
                       |(e & wa & wb & Hcalls & Hlog & Hk & He)];
        rewrite Hcalls, Hlog.
      * exists (RunReadFailed mpu ups). cbn. repeat split; eauto.
        unfold bodySize.
        pose proof (Z.div_mod (Z.of_nat (length (pending (Body r))))
                      minUploadPartSize ltac:(lia)).
        pose proof (Z.mod_pos_bound (Z.of_nat (length (pending (Body r))))
                      minUploadPartSize Hc).
        rewrite Hk. unfold minUploadPartSize in *. lia.
      * exists (RunUploadFailed mpu ups e). cbn. repeat split; eauto.
  - exists (RunCreateFailed e). cbn. repeat split; eauto.
Qed.

(** What is logged, and the headers, whatever the request. *)
Lemma serve_details (r : Request) (w : W) :
  (backendCalls env r w = [] /\
   loggedErrors env r w = [] /\
   written (resp (snd (serve env r w))) = [] /\
   outcome env r w = Return /\
   ((Method r <> MethodPost /\
     responded env r w = Some StatusMethodNotAllowed /\
     responseHeader env r w = []) \/
    (Method r = MethodPost /\ acceptedType (contentType r) = false /\
     responded env r w = Some StatusUnsupportedMediaType /\
     responseHeader env r w = jsonHeader) \/
    (Method r = MethodPost /\ acceptedType (contentType r) = true /\
     maxContentSize < ContentLength r /\
     responded env r w = Some StatusRequestEntityTooLarge /\
     responseHeader env r w = jsonHeader))) \/
  (Method r = MethodPost /\ acceptedType (contentType r) = true /\
   ContentLength r <= maxContentSize /\
   exists run,
     runOf env r w run /\
     backendCalls env r w =
       runTrace (createInput env r w) (pending (Body r)) run /\
     (outcome env r w, responded env r w, written (resp (snd (serve env r w))))
       = runAnswer env run /\
     runDetails env r w run).
Proof.
  destruct (String.eqb_spec (Method r) MethodPost) as [Hm|Hm].
  - destruct (acceptedType (contentType r)) eqn:Hct.
    + destruct (Z.le_gt_cases (ContentLength r) maxContentSize) as [Hlen|Hlen].
      * right. split; [assumption|]. split; [reflexivity|].
        split; [assumption|]. now apply serve_accepted_details.
      * left. unfold backendCalls, responded, outcome, loggedErrors, responseHeader.
        rewrite serve_too_large by (auto; lia). cbn.
        repeat (split; [reflexivity|]). right. right. repeat split; auto. 
    + left. unfold backendCalls, responded, outcome, loggedErrors, responseHeader.
      rewrite serve_unsupported by auto. cbn.
      repeat (split; [reflexivity|]). right. left. repeat split; auto.
  - left. unfold backendCalls, responded, outcome, loggedErrors, responseHeader.
    rewrite serve_not_post by auto. cbn.
    repeat (split; [reflexivity|]). left. repeat split; auto.
Qed.

End Details.

(** ** The shape of the traces *)

Lemma nth_error_map_seq {A : Type} (f : nat -> A) (s m i : nat) (a : A) :
  nth_error (map f (seq s m)) i = Some a -> a = f (s + i)%nat /\ (i < m)%nat.
Proof.
  revert s i. induction m as [|m IH]; intros s i H.
  - destruct i; discriminate.
  - destruct i as [|i]; cbn in H.
    + injection H as <-. rewrite Nat.add_0_r. split; [reflexivity|lia].
    + apply IH in H. destruct H as [-> Hi].
      split; [f_equal; lia|lia].
Qed.

Lemma split_map_seq {A : Type} (f : nat -> A) (m : nat)
  (pre post : list A) (a : A) :
  map f (seq 0 m) = pre ++ a :: post ->
  a = f (length pre) /\ m = (length pre + S (length post))%nat.
Proof.
  intros H. split.
  - assert (Hn : nth_error (map f (seq 0 m)) (length pre) = Some a).
    { rewrite H, nth_error_app2, Nat.sub_diag by lia. reflexivity. }
    apply nth_error_map_seq in Hn. now destruct Hn.
  - apply (f_equal (@length A)) in H.
    rewrite length_map, length_seq, length_app in H. cbn in H. exact H.
Qed.

Lemma uploadCalls_run (cin : CreateMultipartUploadInput.t) (data : list byte)
  (run : Run) :
  uploadCalls (runTrace cin data run) =
  match run with
  | RunCreateFailed _ => []
  | RunReadFailed _ ups => map fst ups
  | RunUploadFailed mpu ups _ => map fst ups ++ [partInput mpu data (length ups)]
  | RunCompleted _ ups _ => map fst ups
  end.
Proof.
  destruct run as [e|mpu ups|mpu ups e|mpu ups reply]; cbn [runTrace].
  - reflexivity.
  - after_create. now rewrite uploadCalls_app, uploadCalls_acks.
  - after_create. now rewrite !uploadCalls_app, uploadCalls_acks.
  - apply uploadCalls_completed.
Qed.

Lemma completeCalls_run (cin : CreateMultipartUploadInput.t) (data : list byte)
  (run : Run) :
  completeCalls (runTrace cin data run) =
  match run with
  | RunCompleted mpu ups _ => [completeInput mpu ups]
  | _ => []
  end.
Proof.
  destruct run as [e|mpu ups|mpu ups e|mpu ups reply]; cbn [runTrace].
  - reflexivity.
  - after_create. now rewrite completeCalls_app, completeCalls_acks.
  - after_create. now rewrite !completeCalls_app, completeCalls_acks.
  - after_create. now rewrite !completeCalls_app, completeCalls_acks.
Qed.

(** The upload-part calls of a run are the requests for the first slices of
    the body, at most one per slice. *)
Lemma run_uploads {W : Type} (env : Env W) (r : Request) (w : W) (run : Run)
  (cin : CreateMultipartUploadInput.t) :
  runOf env r w run -> runDetails env r w run ->
  match run with
  | RunCreateFailed _ => True
  | RunReadFailed mpu _ | RunUploadFailed mpu _ _ | RunCompleted mpu _ _ =>
      exists m,
        uploadCalls (runTrace cin (pending (Body r)) run) =
          map (partInput mpu (pending (Body r))) (seq 0 m) /\
        Z.of_nat m <= bodySize r / minUploadPartSize + 1
  end.
Proof.
  intros Hrun [_ Hdet]. rewrite uploadCalls_run.
  destruct run as [e|mpu ups|mpu ups e|mpu ups reply];
    cbv beta iota zeta delta [runOf] in Hrun.
  - exact I.
  - destruct Hrun as (_ & Hs & _). destruct Hdet as (_ & _ & Hk).
    exists (length ups). split; [exact Hs|lia].
  - destruct Hrun as (_ & Hs & _). destruct Hdet as (_ & Hk).
    exists (S (length ups)). rewrite seq_snoc, map_app, Hs.
    split; [reflexivity|lia].
  - destruct Hrun as (_ & Hs & Hk & _).
    exists (length ups). split; [exact Hs|lia].
Qed.

Lemma acks_have_no_error (cin : CreateMultipartUploadInput.t)
  (mpu : CreateMultipartUploadOutput.t)
  (ups : list (UploadPartInput.t * UploadPartOutput.t)) (ev : Event) :
  In ev (CreateMultipartUploadCall cin (inl mpu) :: map ackEvent ups) ->
  callError ev = None.
Proof.
  intros H. apply in_create_acks in H.
  destruct H as [->|(p & _ & ->)]; reflexivity.
Qed.

(** ** Slices put together *)

Lemma firstn_plus {A : Type} (a m : nat) (l : list A) :
  firstn (a + m) l = firstn a l ++ firstn m (skipn a l).
Proof.
  revert l. induction a as [|a IH]; intros l; [reflexivity|].
  destruct l as [|x l]; cbn.
  - now rewrite firstn_nil.
  - now rewrite IH.
Qed.

Lemma concat_chunks (data : list byte) (k : nat) :
  concat (map (chunk data) (seq 0 k)) =
  firstn (Z.to_nat (Z.of_nat k * minUploadPartSize)) data.
Proof.
  pose proof minUploadPartSize_pos as Hc.
  induction k as [|k IH].
  - replace (Z.to_nat (Z.of_nat 0 * minUploadPartSize)) with 0%nat by lia.
    reflexivity.
  - rewrite seq_snoc, map_app, concat_app, IH. cbn [map concat].
    rewrite app_nil_r. unfold chunk. rewrite <- firstn_plus. f_equal.
    assert (0 <= Z.of_nat k * minUploadPartSize)
      by (apply Z.mul_nonneg_nonneg; lia).
    lia.
Qed.

(** ** What every request comes to *)

Lemma answer_parts {A B C : Type} (a : A) (b : B) (c : C) (x : A * B * C) :
  (a, b, c) = x -> a = fst (fst x) /\ b = snd (fst x) /\ c = snd x.
Proof. intros <-. auto. Qed.

(** The cases of [serve_details], with the answer of an accepted request
    split into how it ends, its status and its payload. *)
Ltac request_cases env r w :=
  let Hans := fresh "Hans" in
  destruct (serve_details env r w) as
    [(Hcalls & Hlog & Hwr & Hout &
       [(Hm & Hst & Hhd)|[(Hm & Hct & Hst & Hhd)|(Hm & Hct & Hlen & Hst & Hhd)]])
    |(Hm & Hct & Hlen & run & Hrun & Htrace & Hans & Hdet)];
  [| | |apply answer_parts in Hans; destruct Hans as (Hout & Hst & Hwr)].

Ltac codes :=
  unfold StatusCreated, StatusMethodNotAllowed, StatusUnsupportedMediaType,
    StatusRequestEntityTooLarge, StatusInternalServerError in *.

(** X1: the three rejections are told apart by the status alone.  The answer
    is 405 exactly when the method is not POST; 415 exactly when the method
    is POST and the content type starts neither with image/ nor with video/;
    413 exactly when the method is POST, the content type is accepted and the
    declared length exceeds the maximum.  None of these codes is ever the
    answer to a request that got past the checks. *)
Theorem status_names_the_rejection {W : Type} (env : Env W) (r : Request) (w : W) :
  (responded env r w = Some StatusMethodNotAllowed <-> Method r <> MethodPost) /\
  (responded env r w = Some StatusUnsupportedMediaType <->
     Method r = MethodPost /\ acceptedType (contentType r) = false) /\
  (responded env r w = Some StatusRequestEntityTooLarge <->
     Method r = MethodPost /\ acceptedType (contentType r) = true /\
     maxContentSize < ContentLength r).
Proof.
  request_cases env r w.
  - rewrite Hst. codes.
    repeat split; try discriminate; try assumption; intros; tauto.
  - rewrite Hst, Hct, Hm. codes.
    repeat split; try discriminate; try reflexivity; intros H; try tauto;
      destruct H as (_ & H & _); discriminate.
  - rewrite Hst, Hct, Hm. codes.
    repeat split; try discriminate; try reflexivity; try assumption;
      intros H; try tauto; destruct H as (_ & H); discriminate.
  - rewrite Hct, Hm.
    destruct (runAnswer_status env run) as [H|[H|H]]; rewrite Hst, H; codes;
      repeat split; try discriminate; try reflexivity; intros H'; try tauto;
      try (destruct H' as (_ & H'); try discriminate;
           destruct H' as (_ & H'); lia).
Qed.

(** X2: a backend call that fails, be it the initiation, a part or the
    completion, is the last call of the request: nothing is retried and
    nothing is sent after it.  The client is answered 500 with an empty body,
    and the error of that call is the one thing logged. *)
Theorem a_failed_call_ends_the_request {W : Type} (env : Env W) (r : Request)
  (w : W) (pre post : list Event) (ev : Event) (e : error) :
  backendCalls env r w = pre ++ ev :: post ->
  callError ev = Some e ->
  post = [] /\
  outcome env r w = Return /\
  responded env r w = Some StatusInternalServerError /\
  written (resp (snd (serve env r w))) = [] /\
  loggedErrors env r w = [e].
Proof.
  intros Heq Herr.
  request_cases env r w;
    try (rewrite Hcalls in Heq; destruct pre; discriminate).
  assert (Hin : In ev (backendCalls env r w)) by (rewrite Heq; apply in_elt).
  rewrite Htrace in Heq, Hin. rewrite Hout, Hst, Hwr.
  destruct Hdet as [_ Hdet].
  destruct run as [e'|mpu ups|mpu ups e'|mpu ups reply]; cbn [runTrace] in *.
  - apply (last_event_unique [] pre post) in Heq; [|intros []].
    destruct Heq as (-> & _ & <-). cbn in Herr. injection Herr as ->.
    cbn [runAnswer fst snd]. rewrite Hdet. auto.
  - apply acks_have_no_error in Hin. congruence.
  - before_last Heq.
    apply last_event_unique in Heq;
      [|intros H; apply acks_have_no_error in H; congruence].
    destruct Heq as (-> & _ & <-). cbn in Herr. injection Herr as ->.
    cbn [runAnswer fst snd]. destruct Hdet as [-> _]. auto.
  - before_last Heq.
    apply last_event_unique in Heq;
      [|intros H; apply acks_have_no_error in H; congruence].
    destruct Heq as (-> & _ & <-).
    destruct reply as [out|e'']; [discriminate|].
    cbn in Herr. injection Herr as ->.
    destruct Hdet as (_ & wa & ->). cbn. auto.
Qed.

Lemma a_failed_call_ends_the_request_witness :
  responded refusingEnv (post "image/png" 3 [x89; x50; x4e]) 0%nat = Some 500 /\
  loggedErrors refusingEnv (post "image/png" 3 [x89; x50; x4e]) 0%nat =
    [other_error "access denied"].
Proof.
  destruct (a_failed_call_ends_the_request refusingEnv
              (post "image/png" 3 [x89; x50; x4e]) 0%nat []
              [] (CreateMultipartUploadCall
                    (createInput refusingEnv (post "image/png" 3 [x89; x50; x4e]) 0%nat)
                    (inr (other_error "access denied")))
              (other_error "access denied") eq_refl eq_refl)
    as (_ & _ & Hst & _ & Hlog).
  split; [exact Hst|exact Hlog].
Defined.

(** X3: 201 Created is only answered after the backend completed the
    upload.  The trace then ends with a complete-multipart call that
    succeeded, no call before it failed, the reply names a key and a
    location, and the payload written is the encoding of exactly that key
    with that one location. *)
Theorem created_only_after_completion {W : Type} (env : Env W) (r : Request)
  (w : W) :
  responded env r w = Some StatusCreated ->
  exists pre input key url payload,
    backendCalls env r w =
      pre ++ [CompleteMultipartUploadCall input
                (inl (CompleteMultipartUploadOutput.mk (Some key) (Some url)))] /\
    (forall ev, In ev pre -> callError ev = None) /\
    json_Marshal env (mkMessage key [mkLink url]) = inl payload /\
    written (resp (snd (serve env r w))) = payload /\
    outcome env r w = Return.
Proof.
  intros H201.
  request_cases env r w; try (rewrite Hst in H201; codes; discriminate).
  rewrite Hst in H201. rewrite Htrace, Hwr, Hout.
  destruct run as [e|mpu ups|mpu ups e|mpu ups [[[key|] [url|]]|e]];
    try (cbn in H201; codes; discriminate).
  cbn [runTrace runAnswer answer CompleteMultipartUploadOutput.Key
         CompleteMultipartUploadOutput.Location] in *.
  destruct (json_Marshal env (mkMessage key [mkLink url])) as [b|e] eqn:Hj;
    [|cbn in H201; codes; discriminate].
  exists (CreateMultipartUploadCall (createInput env r w) (inl mpu)
            :: map ackEvent ups), (completeInput mpu ups), key, url, b.
  repeat split; try reflexivity; try exact Hj.
  intros ev Hin. exact (acks_have_no_error _ _ _ _ Hin).
Qed.

Lemma created_only_after_completion_witness :
  responded acceptingEnv (post "image/png" 3 [x89; x50; x4e]) 0%nat = Some 201 /\
  exists pre input key url payload,
    backendCalls acceptingEnv (post "image/png" 3 [x89; x50; x4e]) 0%nat =
      pre ++ [CompleteMultipartUploadCall input
                (inl (CompleteMultipartUploadOutput.mk (Some key) (Some url)))] /\
    (forall ev, In ev pre -> callError ev = None) /\
    json_Marshal acceptingEnv (mkMessage key [mkLink url]) = inl payload /\
    written (resp (snd (serve acceptingEnv
                          (post "image/png" 3 [x89; x50; x4e]) 0%nat))) = payload /\
    outcome acceptingEnv (post "image/png" 3 [x89; x50; x4e]) 0%nat = Return.
Proof.
  split; [reflexivity|].
  exact (created_only_after_completion acceptingEnv
           (post "image/png" 3 [x89; x50; x4e]) 0%nat eq_refl).
Defined.

(** X4: every call after the initiation is addressed to the upload the
    backend opened.  The upload-part calls carry the bucket, key and upload
    id of the initiation reply; the call at position [i] (from 0) has part
    number [i + 1] (as an int32), its body is the [i]-th slice of
    [minUploadPartSize] bytes of the request body, and its declared length is
    the length of that body.  The completion call carries the same bucket,
    key and upload id. *)
Theorem calls_are_addressed_to_the_upload {W : Type} (env : Env W) (r : Request)
  (w : W) (cin : CreateMultipartUploadInput.t)
  (mpu : CreateMultipartUploadOutput.t) (rest : list Event) :
  backendCalls env r w = CreateMultipartUploadCall cin (inl mpu) :: rest ->
  (forall i u, nth_error (uploadCalls rest) i = Some u ->
     UploadPartInput.Bucket u = CreateMultipartUploadOutput.Bucket mpu /\
     UploadPartInput.Key u = CreateMultipartUploadOutput.Key mpu /\
     UploadPartInput.UploadId u = CreateMultipartUploadOutput.UploadId mpu /\
     UploadPartInput.PartNumber u = wrap32 (Z.of_nat i + 1) /\
     UploadPartInput.Body u = chunk (pending (Body r)) i /\
     UploadPartInput.ContentLength u =
       Z.of_nat (length (UploadPartInput.Body u))) /\
  (forall c, In c (completeCalls rest) ->
     CompleteMultipartUploadInput.Bucket c = CreateMultipartUploadOutput.Bucket mpu /\
     CompleteMultipartUploadInput.Key c = CreateMultipartUploadOutput.Key mpu /\
     CompleteMultipartUploadInput.UploadId c =
       CreateMultipartUploadOutput.UploadId mpu).
Proof.
  intros Heq.
  request_cases env r w; try (rewrite Hcalls in Heq; discriminate).
  pose proof (run_uploads env r w run (createInput env r w) Hrun Hdet) as Hup.
  pose proof (completeCalls_run (createInput env r w) (pending (Body r)) run)
    as Hco.
  rewrite <- Htrace, Heq in Hup, Hco. rewrite Htrace in Heq. clear Htrace.
  assert (Hrest : uploadCalls (CreateMultipartUploadCall cin (inl mpu) :: rest)
                  = uploadCalls rest /\
                  completeCalls (CreateMultipartUploadCall cin (inl mpu) :: rest)
                  = completeCalls rest) by (split; reflexivity).
  destruct Hrest as [Hu Hc]. rewrite Hu in Hup. rewrite Hc in Hco. clear Hu Hc.
  assert (Hparts : forall mpu',
             (exists m, uploadCalls rest =
                          map (partInput mpu' (pending (Body r))) (seq 0 m) /\
                        Z.of_nat m <= bodySize r / minUploadPartSize + 1) ->
             mpu' = mpu ->
             forall i u, nth_error (uploadCalls rest) i = Some u ->
               u = partInput mpu (pending (Body r)) i).
  { intros mpu' (m & Hm' & _) -> i u Hn. rewrite Hm' in Hn.
    apply nth_error_map_seq in Hn. now destruct Hn. }
  assert (Hfields : forall i u, u = partInput mpu (pending (Body r)) i ->
     UploadPartInput.Bucket u = CreateMultipartUploadOutput.Bucket mpu /\
     UploadPartInput.Key u = CreateMultipartUploadOutput.Key mpu /\
     UploadPartInput.UploadId u = CreateMultipartUploadOutput.UploadId mpu /\
     UploadPartInput.PartNumber u = wrap32 (Z.of_nat i + 1) /\
     UploadPartInput.Body u = chunk (pending (Body r)) i /\
     UploadPartInput.ContentLength u =
       Z.of_nat (length (UploadPartInput.Body u))).
  { intros i u ->. unfold partInput.
    cbn [UploadPartInput.Bucket UploadPartInput.Key UploadPartInput.UploadId
           UploadPartInput.PartNumber UploadPartInput.Body
           UploadPartInput.ContentLength].
    repeat (split; [reflexivity|]). reflexivity. }
  destruct run as [e|mpu' ups|mpu' ups e|mpu' ups reply]; cbn [runTrace] in Heq;
    injection Heq as Hcin Hmpu Hr; try discriminate.
  - split.
    + intros i u Hn. apply Hfields. now apply (Hparts mpu').
    + rewrite Hco. intros c [].
  - split.
    + intros i u Hn. apply Hfields. now apply (Hparts mpu').
    + rewrite Hco. intros c [].
  - split.
    + intros i u Hn. apply Hfields. now apply (Hparts mpu').
    + rewrite Hco. intros c [<-|[]]. subst mpu'. repeat split; reflexivity.
Qed.

Lemma calls_are_addressed_to_the_upload_witness :
  backendCalls acceptingEnv (post "image/png" 3 [x89; x50; x4e]) 0%nat =
    CreateMultipartUploadCall
      (CreateMultipartUploadInput.mk
         (Some "media") (Some "uuid-0.png") "private" (Some "image/png"))
      (inl (CreateMultipartUploadOutput.mk
              (Some "media") (Some "uuid-0.png") (Some "upload-1")))
    :: smallUploadRest /\
  forall c, In c (completeCalls smallUploadRest) ->
    CompleteMultipartUploadInput.Bucket c = Some "media" /\
    CompleteMultipartUploadInput.Key c = Some "uuid-0.png" /\
    CompleteMultipartUploadInput.UploadId c = Some "upload-1".
Proof.
  split; [reflexivity|].
  exact (proj2 (calls_are_addressed_to_the_upload acceptingEnv
                  (post "image/png" 3 [x89; x50; x4e]) 0%nat
                  (CreateMultipartUploadInput.mk
                     (Some "media") (Some "uuid-0.png") "private"
                     (Some "image/png"))
                  (CreateMultipartUploadOutput.mk
                     (Some "media") (Some "uuid-0.png") (Some "upload-1"))
                  smallUploadRest eq_refl)).
Defined.

(** X5: no part sent to the backend is larger than [minUploadPartSize], and
    only the last upload-part call of a request can be smaller: every call
    that is followed by another one carries exactly [minUploadPartSize]
    bytes.  This holds whatever the backend answers and however the body
    ends. *)
Theorem only_the_last_part_is_short {W : Type} (env : Env W) (r : Request)
  (w : W) (pre post : list UploadPartInput.t) (u : UploadPartInput.t) :
  uploadCalls (backendCalls env r w) = pre ++ u :: post ->
  Z.of_nat (length (UploadPartInput.Body u)) <= minUploadPartSize /\
  (post <> [] ->
   Z.of_nat (length (UploadPartInput.Body u)) = minUploadPartSize).
Proof.
  intros Heq. pose proof minUploadPartSize_pos as Hc.
  request_cases env r w;
    try (rewrite Hcalls in Heq; destruct pre; discriminate).
  pose proof (run_uploads env r w run (createInput env r w) Hrun Hdet) as Hup.
  rewrite <- Htrace, Heq in Hup.
  assert (Hshape : exists mpu m,
             pre ++ u :: post = map (partInput mpu (pending (Body r))) (seq 0 m) /\
             Z.of_nat m <= bodySize r / minUploadPartSize + 1).
  { destruct run as [e|mpu ups|mpu ups e|mpu ups reply].
    - rewrite Htrace in Heq. destruct pre; discriminate.
    - destruct Hup as (m & H1 & H2). eauto.
    - destruct Hup as (m & H1 & H2). eauto.
    - destruct Hup as (m & H1 & H2). eauto. }
  destruct Hshape as (mpu & m & Hmap & Hm'). symmetry in Hmap.
  apply split_map_seq in Hmap. destruct Hmap as [-> Hlen'].
  unfold partInput. cbn [UploadPartInput.Body]. split.
  - rewrite chunk_length. lia.
  - intros Hpost. apply chunk_full. unfold bodySize in Hm'.
    destruct post as [|p post]; [congruence|]. cbn [length] in Hlen'. lia.
Qed.

Lemma only_the_last_part_is_short_witness :
  uploadCalls (backendCalls acceptingEnv
                 (post "image/png" 3 [x89; x50; x4e]) 0%nat) =
    [] ++ UploadPartInput.mk (Some "media") (Some "uuid-0.png") 1
            (Some "upload-1") [x89; x50; x4e] 3 :: [] /\
  Z.of_nat (length [x89; x50; x4e]) <= minUploadPartSize.
Proof.
  split; [reflexivity|].
  exact (proj1 (only_the_last_part_is_short acceptingEnv
                  (post "image/png" 3 [x89; x50; x4e]) 0%nat [] []
                  (UploadPartInput.mk (Some "media") (Some "uuid-0.png") 1
                     (Some "upload-1") [x89; x50; x4e] 3)
                  eq_refl)).
Defined.

(** X6: an upload that reaches the completion call has handed the whole
    request body to the backend.  The bodies of the upload-part calls made
    before the completion, put end to end in the order of the calls, are the
    body of the request: no byte is lost, repeated or reordered by the
    slicing. *)
Theorem completed_upload_holds_the_body {W : Type} (env : Env W) (r : Request)
  (w : W) (pre post : list Event) (input : CompleteMultipartUploadInput.t)
  (reply : CompleteMultipartUploadOutput.t + error) :
  backendCalls env r w = pre ++ CompleteMultipartUploadCall input reply :: post ->
  concat (map UploadPartInput.Body (uploadCalls pre)) = pending (Body r).
Proof.
  intros Heq. pose proof minUploadPartSize_pos as Hc.
  request_cases env r w;
    try (rewrite Hcalls in Heq; destruct pre; discriminate).
  assert (Hin : In (CompleteMultipartUploadCall input reply) (backendCalls env r w))
    by (rewrite Heq; apply in_elt).
  rewrite Htrace in Heq, Hin.
  destruct run as [e'|mpu ups|mpu ups e'|mpu ups reply']; cbn [runTrace] in *.
  - destruct Hin as [H|[]]; discriminate.
  - exfalso. exact (no_completion_before_the_end _ _ _ _ _ Hin).
  - exfalso. before_last Hin.
    apply in_app_or in Hin. destruct Hin as [Hin|[Hin|[]]]; [|discriminate].
    exact (no_completion_before_the_end _ _ _ _ _ Hin).
  - before_last Heq.
    apply last_event_unique in Heq; [|apply no_completion_before_the_end].
    destruct Heq as (_ & -> & _).
    destruct Hrun as (_ & Hs & Hk & _).
    assert (Hup : uploadCalls
                    (CreateMultipartUploadCall (createInput env r w) (inl mpu)
                       :: map ackEvent ups) = map fst ups).
    { after_create. now rewrite uploadCalls_app, uploadCalls_acks. }
    rewrite Hup, (sliced_Body mpu _ ups Hs), concat_chunks.
    apply firstn_all2. unfold bodySize in Hk.
    pose proof (Z.mod_pos_bound (Z.of_nat (length (pending (Body r))))
                  minUploadPartSize Hc).
    pose proof (Z.div_mod (Z.of_nat (length (pending (Body r))))
                  minUploadPartSize ltac:(lia)).
    apply Nat2Z.inj_le. rewrite Z2Nat.id by nia. nia.
Qed.

Lemma completed_upload_holds_the_body_witness :
  concat (map UploadPartInput.Body (uploadCalls smallUploadTrace)) =
    [x89; x50; x4e].
Proof.
  exact (completed_upload_holds_the_body acceptingEnv
           (post "image/png" 3 [x89; x50; x4e]) 0%nat
           smallUploadTrace [] smallUploadCompletion
           (inl (CompleteMultipartUploadOutput.mk
                   (Some "uuid-0.png")
                   (Some "https://media.example/uuid-0.png")))
           eq_refl).
Defined.

(** X7: a body that breaks off in the middle of a part, with a read error
    other than end-of-input, is never completed: whatever the backend
    answers, no complete-multipart call is made, the client is answered 500
    with an empty body, and exactly one error is logged.  The parts read in
    full before the break have been sent, and when the backend accepted them
    all, the error logged is the read error. *)
Theorem broken_body_is_never_completed {W : Type} (env : Env W) (r : Request)
  (w : W) :
  Method r = MethodPost ->
  acceptedType (contentType r) = true ->
  ContentLength r <= maxContentSize ->
  final (Body r) <> io_EOF ->
  bodySize r mod minUploadPartSize <> 0 ->
  completeCalls (backendCalls env r w) = [] /\
  responded env r w = Some StatusInternalServerError /\
  written (resp (snd (serve env r w))) = [] /\
  (exists e, loggedErrors env r w = [e]) /\
  (backendSucceeds env ->
   Z.of_nat (length (uploadCalls (backendCalls env r w))) =
     bodySize r / minUploadPartSize /\
   loggedErrors env r w = [final (Body r)]).
Proof.
  intros Hm Hct Hlen Hfin Hmod.
  destruct (serve_accepted_details env r w Hm Hct Hlen)
    as (run & Hrun & Htrace & Hans & _ & Hdet).
  apply answer_parts in Hans. destruct Hans as (_ & Hst & Hwr).
  rewrite Hst, Hwr, Htrace, completeCalls_run, uploadCalls_run.
  destruct run as [e|mpu ups|mpu ups e|mpu ups reply];
    cbv beta iota zeta delta [runOf] in Hrun;
    cbv beta iota zeta delta [runAnswer fst snd];
    [| | |destruct Hdet as ([Hd|Hd] & _); contradiction];
    (split; [reflexivity|]); (split; [reflexivity|]); (split; [reflexivity|]).
  - split; [eauto|].
    intros (Hc & _). exfalso. destruct Hrun as (w' & Hrun).
    destruct (Hc (createInput env r w) (snd (uuid_New env w))) as (o & w'' & Hc').
    congruence.
  - destruct Hdet as (Hlog & _ & Hk).
    split; [eauto|]. intros _. rewrite length_map. split; assumption.
  - destruct Hdet as (Hlog & _).
    split; [eauto|].
    intros (_ & Hu & _). exfalso. destruct Hrun as (_ & _ & w1 & w2 & Hrun).
    destruct (Hu (partInput mpu (pending (Body r)) (length ups)) w1)
      as (o & w'' & Hu'). congruence.
Qed.

Lemma broken_body_is_never_completed_witness :
  completeCalls (backendCalls acceptingEnv
                   (broken "image/png" [x89; x50; x4e]) 0%nat) = [] /\
  responded acceptingEnv (broken "image/png" [x89; x50; x4e]) 0%nat = Some 500 /\
  loggedErrors acceptingEnv (broken "image/png" [x89; x50; x4e]) 0%nat =
    [other_error "unexpected EOF"].
Proof.
  destruct (broken_body_is_never_completed acceptingEnv
              (broken "image/png" [x89; x50; x4e]) 0%nat
              eq_refl eq_refl ltac:(discriminate) ltac:(discriminate)
              ltac:(discriminate))
    as (Hc & Hst & _ & _ & Hlog).
  split; [exact Hc|]. split; [exact Hst|].
  exact (proj2 (Hlog acceptingEnv_succeeds)).
Defined.

(** X8: with a backend that accepts every call and an encoder that does not
    fail, a request that got past the checks is answered 201 or 500, and 201
    exactly when the body ends with end-of-input or is cut at a multiple of
    [minUploadPartSize].  In particular a read error that strikes exactly at
    a part boundary (also: before the first byte) is taken for the end of the
    body: the upload is completed and answered 201. *)
Theorem created_iff_the_body_ends_well {W : Type} (env : Env W) (r : Request)
  (w : W) :
  Method r = MethodPost ->
  acceptedType (contentType r) = true ->
  ContentLength r <= maxContentSize ->
  backendSucceeds env ->
  marshalSucceeds env ->
  (responded env r w = Some StatusCreated \/
   responded env r w = Some StatusInternalServerError) /\
  (responded env r w = Some StatusCreated <->
   final (Body r) = io_EOF \/ bodySize r mod minUploadPartSize = 0).
Proof.
  intros Hm Hct Hlen Hback Hjson.
  destruct (serve_accepted_details env r w Hm Hct Hlen)
    as (run & Hrun & Htrace & Hans & _ & Hdet).
  apply answer_parts in Hans. destruct Hans as (_ & Hst & _).
  rewrite Hst. destruct Hback as (Hc & Hu & Hf).
  destruct run as [e|mpu ups|mpu ups e|mpu ups reply];
    cbv beta iota zeta delta [runOf] in Hrun.
  - exfalso. destruct Hrun as (w' & Hrun).
    destruct (Hc (createInput env r w) (snd (uuid_New env w))) as (o & w'' & Hc').
    congruence.
  - destruct Hdet as (_ & Hmod & _). destruct Hrun as (_ & _ & Hfin & _).
    cbn. codes. split; [now right|].
    split; [discriminate|]. intros [H|H]; contradiction.
  - exfalso. destruct Hrun as (_ & _ & w1 & w2 & Hrun).
    destruct (Hu (partInput mpu (pending (Body r)) (length ups)) w1)
      as (o & w'' & Hu'). congruence.
  - destruct Hrun as (_ & _ & _ & w1 & w2 & Hrun).
    destruct (Hf (completeInput mpu ups) w1) as (key & url & w'' & Hf').
    assert (reply = inl (CompleteMultipartUploadOutput.mk (Some key) (Some url)))
      as -> by congruence.
    destruct (Hjson (mkMessage key [mkLink url])) as (b & Hb).
    destruct Hdet as (Hend & wa & Hlog).
    cbn in Hlog |- *. rewrite Hb in Hlog |- *. cbn.
    split; [now left|tauto].
Qed.

Lemma created_iff_the_body_ends_well_witness :
  responded acceptingEnv (broken "video/mp4" []) 0%nat = Some 201.
Proof.
  apply (proj2 (proj2 (created_iff_the_body_ends_well acceptingEnv
                         (broken "video/mp4" []) 0%nat
                         eq_refl eq_refl ltac:(discriminate)
                         acceptingEnv_succeeds acceptingEnv_marshals))).
  right. reflexivity.
Defined.

(** X9: what the handler logs.  Every 500 answer comes with exactly one
    logged error; the rejections 405, 415 and 413 log nothing; a panic logs
    nothing; and a 201 answer logs nothing unless writing the payload to the
    connection failed, in which case that one error is logged and the status
    stays 201. *)
Theorem one_error_logged_per_failure {W : Type} (env : Env W) (r : Request)
  (w : W) :
  (responded env r w = Some StatusInternalServerError ->
   exists e, loggedErrors env r w = [e]) /\
  (responded env r w = Some StatusMethodNotAllowed \/
   responded env r w = Some StatusUnsupportedMediaType \/
   responded env r w = Some StatusRequestEntityTooLarge ->
   loggedErrors env r w = []) /\
  (responded env r w = None -> loggedErrors env r w = []) /\
  (responded env r w = Some StatusCreated ->
   loggedErrors env r w = [] \/
   exists e wa wb,
     conn_Write env (written (resp (snd (serve env r w)))) wa = (Some e, wb) /\
     loggedErrors env r w = [e]).
Proof.
  request_cases env r w;
    try (rewrite Hst, Hlog; codes;
         repeat split; try discriminate; intros; auto).
  rewrite Hst, Hwr. destruct Hdet as [_ Hdet].
  destruct run as [e|mpu ups|mpu ups e|mpu ups reply];
    cbv beta iota zeta delta [runAnswer fst snd].
  - rewrite Hdet. codes.
    split; [eauto|]. split; [intros [H|[H|H]]; discriminate|].
    split; discriminate.
  - destruct Hdet as (-> & _). codes.
    split; [eauto|]. split; [intros [H|[H|H]]; discriminate|].
    split; discriminate.
  - destruct Hdet as (-> & _). codes.
    split; [eauto|]. split; [intros [H|[H|H]]; discriminate|].
    split; discriminate.
  - destruct Hdet as (_ & wa & ->).
    destruct reply as [[[key|] [url|]]|e]; cbn;
      try (codes; split; [eauto; discriminate|];
           split; [intros [H|[H|H]]; discriminate|];
           split; [auto; discriminate|discriminate]).
    destruct (json_Marshal env (mkMessage key [mkLink url])) as [b|e]; cbn.
    + codes. split; [discriminate|].
      split; [intros [H|[H|H]]; discriminate|]. split; [discriminate|].
      intros _. destruct (conn_Write env b wa) as [[e|] wb] eqn:Hw; cbn.
      * right. eauto.
      * now left.
    + codes. split; [eauto|].
      split; [intros [H|[H|H]]; discriminate|]. split; discriminate.
Qed.

(** X10: a completion reply that reports success but names no key, or no
    location, makes the handler panic on the nil dereference: the request
    ends without a status, without a payload and without a log entry, after
    the object has been completed in the backend. *)
Theorem nameless_completion_panics {W : Type} (env : Env W) (r : Request)
  (w : W) (pre post : list Event) (input : CompleteMultipartUploadInput.t)
  (out : CompleteMultipartUploadOutput.t) :
  backendCalls env r w =
    pre ++ CompleteMultipartUploadCall input (inl out) :: post ->
  CompleteMultipartUploadOutput.Key out = None \/
  CompleteMultipartUploadOutput.Location out = None ->
  outcome env r w = Panic /\
  responded env r w = None /\
  written (resp (snd (serve env r w))) = [] /\
  loggedErrors env r w = [].
Proof.
  intros Heq Hnil.
  request_cases env r w;
    try (rewrite Hcalls in Heq; destruct pre; discriminate).
  assert (Hin : In (CompleteMultipartUploadCall input (inl out))
                  (backendCalls env r w))
    by (rewrite Heq; apply in_elt).
  rewrite Htrace in Heq, Hin. rewrite Hout, Hst, Hwr. destruct Hdet as [_ Hdet].
  destruct run as [e'|mpu ups|mpu ups e'|mpu ups reply']; cbn [runTrace] in *.
  - destruct Hin as [H|[]]; discriminate.
  - exfalso. exact (no_completion_before_the_end _ _ _ _ _ Hin).
  - exfalso. before_last Hin.
    apply in_app_or in Hin. destruct Hin as [Hin|[Hin|[]]]; [|discriminate].
    exact (no_completion_before_the_end _ _ _ _ _ Hin).
  - before_last Heq.
    apply last_event_unique in Heq; [|apply no_completion_before_the_end].
    destruct Heq as (_ & _ & Hev). injection Hev as _ ->.
    destruct Hdet as (_ & wa & ->).
    destruct out as [[key|] [url|]]; cbn in Hnil |- *;
      try (destruct Hnil; discriminate); auto.
Qed.

Lemma nameless_completion_panics_witness :
  backendCalls namelessEnv (post "image/png" 3 [x89; x50; x4e]) 0%nat =
    smallUploadTrace ++
      CompleteMultipartUploadCall smallUploadCompletion
        (inl (CompleteMultipartUploadOutput.mk
                None (Some "https://media.example/"))) :: [] /\
  outcome namelessEnv (post "image/png" 3 [x89; x50; x4e]) 0%nat = Panic /\
  responded namelessEnv (post "image/png" 3 [x89; x50; x4e]) 0%nat = None.
Proof.
  split; [reflexivity|].
  destruct (nameless_completion_panics namelessEnv
              (post "image/png" 3 [x89; x50; x4e]) 0%nat
              smallUploadTrace [] smallUploadCompletion
              (CompleteMultipartUploadOutput.mk
                 None (Some "https://media.example/"))
              eq_refl (or_introl eq_refl))
    as (Ho & Hst & _).
  split; [exact Ho|exact Hst].
Defined.

(** X11: the response headers depend on the method only.  Every answer to a
    POST request, whether 201, 413, 415, 500 or none at all, carries exactly
    the two headers Accept: application/octet-stream and Content-Type:
    application/json, although no error answer has a body; the answer to any
    other method carries no header. *)
Theorem headers_follow_the_method {W : Type} (env : Env W) (r : Request) (w : W) :
  responseHeader env r w =
    if String.eqb (Method r) MethodPost
    then [("Accept", "application/octet-stream");
          ("Content-Type", "application/json")]
    else [].
Proof.
  request_cases env r w; try destruct Hdet as [Hhd _]; rewrite Hhd;
    try (rewrite Hm, String.eqb_refl; reflexivity).
  destruct (String.eqb_spec (Method r) MethodPost); [contradiction|reflexivity].
Qed.


(** X13: the number of backend calls is bounded by the size of the body.  A
    request makes at most [bodySize / minUploadPartSize + 1] upload-part calls
    and at most one complete-multipart call, hence at most
    [bodySize / minUploadPartSize + 3] backend calls in all: no call is ever
    repeated. *)
Theorem calls_are_bounded {W : Type} (env : Env W) (r : Request) (w : W) :
  Z.of_nat (length (uploadCalls (backendCalls env r w)))
    <= bodySize r / minUploadPartSize + 1 /\
  (length (completeCalls (backendCalls env r w)) <= 1)%nat /\
  Z.of_nat (length (backendCalls env r w))
    <= bodySize r / minUploadPartSize + 3.
Proof.
  pose proof minUploadPartSize_pos as Hc.
  assert (Hdiv : 0 <= bodySize r / minUploadPartSize)
    by (apply Z.div_pos; [unfold bodySize|]; lia).
  request_cases env r w;
    try (rewrite Hcalls; unfold uploadCalls, completeCalls;
         cbn [flat_map length]; lia).
  destruct Hdet as [_ Hdet].
  rewrite Htrace, completeCalls_run, uploadCalls_run.
  destruct run as [e|mpu ups|mpu ups e|mpu ups reply];
    cbv beta iota zeta delta [runOf] in Hrun; cbn [runTrace length].
  - lia.
  - destruct Hdet as (_ & _ & Hk). rewrite !length_map. lia.
  - destruct Hdet as (_ & Hk).
    rewrite !length_app, !length_map. cbn [length]. lia.
  - destruct Hrun as (_ & _ & Hk & _).
    rewrite !length_app, !length_map. cbn [length]. lia.
Qed.

(** X14: the first backend call of a request is the initiation of a
    multipart upload, and it is the only initiation.  It names the configured
    bucket, the canned ACL private, the content type of the request as sent,
    and as key one fresh UUID followed by the extension of the content
    type. *)
Theorem first_call_initiates_the_upload {W : Type} (env : Env W) (r : Request)
  (w : W) (ev : Event) (rest : list Event) :
  backendCalls env r w = ev :: rest ->
  (exists reply,
     ev = CreateMultipartUploadCall
            (CreateMultipartUploadInput.mk
               (Some (bucket env))
               (Some (String.append (fst (uuid_New env w))
                        (filenameExtension (contentType r))))
               ObjectCannedACLPrivate
               (Some (contentType r)))
            reply) /\
  (forall input reply, ~ In (CreateMultipartUploadCall input reply) rest).
Proof.
  intros Heq.
  request_cases env r w; try (rewrite Hcalls in Heq; discriminate).
  rewrite Htrace in Heq.
  assert (Hrest : forall ups x, (forall input reply,
              x <> CreateMultipartUploadCall input reply) ->
            forall input reply,
              ~ In (CreateMultipartUploadCall input reply)
                  (map ackEvent ups ++ [x])).
  { intros ups x Hx input reply Hin. apply in_app_or in Hin.
    destruct Hin as [Hin|[Hin|[]]].
    - apply in_map_iff in Hin. destruct Hin as (p & Hp & _). discriminate.
    - exact (Hx _ _ Hin). }
  destruct run as [e|mpu ups|mpu ups e|mpu ups reply]; cbn [runTrace] in Heq;
    injection Heq as <- <-; (split; [eexists; reflexivity|]).
  - intros input reply [].
  - intros input reply Hin.
    apply in_map_iff in Hin. destruct Hin as (p & Hp & _). discriminate.
  - apply Hrest. discriminate.
  - apply Hrest. discriminate.
Qed.

Lemma first_call_initiates_the_upload_witness :
  backendCalls acceptingEnv (post "image/png" 3 [x89; x50; x4e]) 0%nat =
    CreateMultipartUploadCall
      (CreateMultipartUploadInput.mk
         (Some "media") (Some "uuid-0.png") "private" (Some "image/png"))
      (inl (CreateMultipartUploadOutput.mk
              (Some "media") (Some "uuid-0.png") (Some "upload-1")))
    :: smallUploadRest /\
  forall input reply, ~ In (CreateMultipartUploadCall input reply) smallUploadRest.
Proof.
  split; [reflexivity|].
  exact (proj2 (first_call_initiates_the_upload acceptingEnv
                  (post "image/png" 3 [x89; x50; x4e]) 0%nat
                  (CreateMultipartUploadCall
                     (CreateMultipartUploadInput.mk
                        (Some "media") (Some "uuid-0.png") "private"
                        (Some "image/png"))
                     (inl (CreateMultipartUploadOutput.mk
                             (Some "media") (Some "uuid-0.png")
                             (Some "upload-1"))))
                  smallUploadRest eq_refl)).
Defined.

(** X15: the extension table has no entry the content-type check would turn
    away: a content type that is given a filename extension starts with
    image/ or video/, and the extension is a dot followed by at least three
    characters. *)
Theorem mapped_types_are_accepted (ct : string) :
  filenameExtension ct <> "" ->
  acceptedType ct = true /\
  String.prefix "." (filenameExtension ct) = true /\
  (4 <= String.length (filenameExtension ct))%nat.
Proof.
  unfold filenameExtension.
  repeat match goal with
         | |- context [String.eqb ct ?s] =>
             destruct (String.eqb_spec ct s) as [->|_]
         end; intros H; try (cbn; repeat split; try reflexivity; lia).
  contradiction.
Qed.

Lemma mapped_types_are_accepted_witness :
  acceptedType "video/quicktime" = true /\
  String.prefix "." (filenameExtension "video/quicktime") = true /\
  (4 <= String.length (filenameExtension "video/quicktime"))%nat.
Proof.
  apply (mapped_types_are_accepted "video/quicktime"). discriminate.
Defined.
